(** * merge_image_metadata: a shallow embedding of [merge_image_metadata.py]

    The program hashes every image of a folder, compares the hashes of all
    pairs of images and, for each pair that is similar, reads the Keywords,
    Subject and HierarchicalSubject fields of both images with [exiftool],
    merges them and writes the merged values to both images.

    Python [str] values are modelled as Rocq strings holding the UTF-8
    encoding of the text.  The separators the program splits on are ASCII,
    and UTF-8 preserves both the position of ASCII characters and the
    code-point order, so [split], [join] and [<] on the encoding agree with
    the Python operations on the text. *)

From Stdlib Require Import ZArith String Ascii List Lia.
From stdpp Require Import gmap strings list.

Local Open Scope string_scope.
Local Open Scope list_scope.
Local Open Scope stdpp_scope.

(** ** Exceptions and results *)

Inductive exn : Type :=
  | IndexError
  | TypeError
  | CalledProcessError
  | OSError
  | SystemExit (code : Z).

Inductive result (A : Type) : Type :=
  | Ok (a : A)
  | Raise (e : exn).
Arguments Ok {A} a.
Arguments Raise {A} e.

(** ** Python string and list primitives *)

(** [xs[i]] for a non-negative literal index. *)
Definition py_index {A : Type} (xs : list A) (i : nat) : result A :=
  match nth_error xs i with
  | Some x => Ok x
  | None => Raise IndexError
  end.

Definition cons_first (c : ascii) (ps : list string) : list string :=
  match ps with
  | p :: ps' => String c p :: ps'
  | [] => [String c ""]
  end.

Definition may_split (maxsplit : option nat) : bool :=
  match maxsplit with
  | Some O => false
  | _ => true
  end.

Definition after_split (maxsplit : option nat) : option nat :=
  match maxsplit with
  | Some n => Some (Nat.pred n)
  | None => None
  end.

(** The scan behind [s.split(sep, maxsplit)]: the text is read from the left,
    it is cut at each occurrence of [sep] that starts at the current position
    while splits remain, and the scan resumes behind the separator ([skip]
    counts the characters of a separator still to be passed over).
    [maxsplit = None] is Python's default, no limit. *)
Fixpoint split_from (sep : string) (skip : nat) (maxsplit : option nat)
    (s : string) : list string :=
  match s with
  | "" => [""]
  | String c s' =>
      match skip with
      | S k => split_from sep k maxsplit s'
      | O =>
          if may_split maxsplit && String.prefix sep s
          then "" :: split_from sep (Nat.pred (String.length sep))
                       (after_split maxsplit) s'
          else cons_first c (split_from sep 0 maxsplit s')
      end
  end.

(** [s.split(sep)]; the program only passes non-empty literal separators. *)
Definition str_split (sep s : string) : list string :=
  split_from sep 0 None s.

(** [s.split(sep, maxsplit)]. *)
Definition str_split_max (sep : string) (maxsplit : nat) (s : string)
    : list string :=
  split_from sep 0 (Some maxsplit) s.

(** [sep.join(xs)]. *)
Definition str_join (sep : string) (xs : list string) : string :=
  String.concat sep xs.

(** [sub in s]. *)
Fixpoint str_contains (sub s : string) : bool :=
  String.prefix sub s ||
  match s with
  | "" => false
  | String _ s' => str_contains sub s'
  end.

(** [s.endswith(suffix)]. *)
Definition str_endswith (s suffix : string) : bool :=
  String.prefix (String.rev suffix) (String.rev s).

Definition ascii_lower (c : ascii) : ascii :=
  let n := nat_of_ascii c in
  if (65 <=? n)%nat && (n <=? 90)%nat then ascii_of_nat (n + 32) else c.

(** [s.lower()] on the ASCII letters; no other character lowers to a
    character of the extensions tested below. *)
Fixpoint str_lower (s : string) : string :=
  match s with
  | "" => ""
  | String c s' => String (ascii_lower c) (str_lower s')
  end.

(** [a < b] on [str]. *)
Definition str_lt (a b : string) : bool := String.ltb a b.

(** [list(set(xs))]: the distinct elements of [xs], in an order the
    language does not fix. *)
Definition list_set (xs : list string) : list string :=
  elements (list_to_set xs : gset string).

Definition CRLF : string := String "013"%char (String "010"%char "").
Definition COMMA : string := ", ".
Definition COLON : string := ": ".

(** ** The world outside the program *)

(** Modelled from the spec: an [imagehash.ImageHash] is a fixed-size bit
    pattern (the library is not part of the repository); [h1 - h2] counts the
    positions at which two patterns of the same size differ and raises
    [TypeError] for patterns of different sizes. *)
Definition ImageHash : Type := list bool.

Fixpoint hamming (h1 h2 : list bool) : Z :=
  match h1, h2 with
  | b1 :: t1, b2 :: t2 => (if Bool.eqb b1 b2 then 0 else 1) + hamming t1 t2
  | _, _ => 0
  end%Z.

Definition hash_sub (h1 h2 : ImageHash) : result Z :=
  if (length h1 =? length h2)%nat then Ok (hamming h1 h2) else Raise TypeError.

(** What the program cannot decide by itself: the directory listing, the
    path separator, the decoded images and the external tool.  The tool
    answers a command from the commands run before it. *)
Record World : Type := {
  listdir : string -> result (list string);
  path_join : string -> string -> string;
  average_hash : string -> result ImageHash;
  run_process : list (list string) -> list string -> result string
}.

Inductive level : Type := DEBUG | INFO.

Inductive event : Type :=
  | Exec (cmd : list string)
  | Log (lvl : level) (msg : string)
  | Print (msg : string).

(** The process state: what has happened so far, oldest first, and the level
    of the module's logger. *)
Record state : Type := {
  trace : list event;
  logger_level : level
}.

Definition initial_state : state := {| trace := []; logger_level := INFO |}.

Definition commands (tr : list event) : list (list string) :=
  flat_map (fun e => match e with Exec cmd => [cmd] | _ => [] end) tr.

Definition record_event (e : event) (st : state) : state :=
  {| trace := trace st ++ [e]; logger_level := logger_level st |}.

(** ** State and exception monad *)

Definition M (A : Type) : Type := state -> result A * state.

Definition ret {A : Type} (a : A) : M A := fun st => (Ok a, st).

Definition bind {A B : Type} (m : M A) (k : A -> M B) : M B :=
  fun st =>
    match m st with
    | (Ok a, st') => k a st'
    | (Raise e, st') => (Raise e, st')
    end.

Definition raise {A : Type} (e : exn) : M A := fun st => (Raise e, st).

Definition lift {A : Type} (r : result A) : M A := fun st => (r, st).

#[export] Instance M_ret : MRet M := @ret.
#[export] Instance M_bind : MBind M := fun A B k m => bind m k.

Fixpoint for_each {A : Type} (xs : list A) (body : A -> M unit) : M unit :=
  match xs with
  | [] => ret tt
  | x :: xs' => body x;; for_each xs' body
  end.

Definition level_enabled (msg_level logger : level) : bool :=
  match logger, msg_level with
  | INFO, DEBUG => false
  | _, _ => true
  end.

Definition logger_log (lvl : level) (msg : string) : M unit :=
  fun st =>
    if level_enabled lvl (logger_level st)
    then (Ok tt, record_event (Log lvl msg) st)
    else (Ok tt, st).

Definition logger_debug : string -> M unit := logger_log DEBUG.
Definition logger_info : string -> M unit := logger_log INFO.

Definition logger_setLevel (lvl : level) : M unit :=
  fun st => (Ok tt, {| trace := trace st; logger_level := lvl |}).

Definition print (msg : string) : M unit :=
  fun st => (Ok tt, record_event (Print msg) st).

Definition sys_exit {A : Type} (code : Z) : M A := raise (SystemExit code).

(** ** The program *)

Definition IMAGE_EXTENSIONS : list string := [".jpg"; ".jpeg"; ".png"].

(** The module's documentation string. *)
Definition module_doc : string :=
"
Merge metadata between images.
Useful for cases when metadata was already added and then you receive the high-res
version afterwards.
Assumes that you want to merge the Keyword, Subject, and HierarchicalSubject fields as
used by Adobe Bridge.
Currently merges metadata between two consecutive images only (i.e. will not correctly
detect triplicates).

Usage: merge_image_metadata.py [-v] FOLDER

Options:
    -v  Enable verbose (debug) output
".

(** The three accumulators of [merge_metadata]. *)
Record fields : Type := {
  keywords : list string;
  subject : list string;
  hierarchicalsubject : list string
}.

Definition add_keywords (v : string) (acc : fields) : fields :=
  {| keywords := keywords acc ++ [v];
     subject := subject acc;
     hierarchicalsubject := hierarchicalsubject acc |}.

Definition add_subject (v : string) (acc : fields) : fields :=
  {| keywords := keywords acc;
     subject := subject acc ++ [v];
     hierarchicalsubject := hierarchicalsubject acc |}.

Definition add_hierarchicalsubject (v : string) (acc : fields) : fields :=
  {| keywords := keywords acc;
     subject := subject acc;
     hierarchicalsubject := hierarchicalsubject acc ++ [v] |}.

Definition result_bind {A B : Type} (r : result A) (k : A -> result B)
    : result B :=
  match r with
  | Ok a => k a
  | Raise e => Raise e
  end.

(** [output.split("\r\n", 1)[0].split(": ")[1]] *)
Definition keywords_value (output : string) : result string :=
  result_bind (py_index (str_split_max CRLF 1 output) 0)
    (fun line => py_index (str_split COLON line) 1).

(** [output.split("\r\n")[i].split(": ")[1]] *)
Definition line_value (i : nat) (output : string) : result string :=
  result_bind (py_index (str_split CRLF output) i)
    (fun line => py_index (str_split COLON line) 1).

(** The [try] statement of the loop of [merge_metadata]: the three appends
    run in order, the first [IndexError] abandons the rest and the values
    appended before it stay. *)
Definition append_values (output : string) (acc : fields) : fields :=
  match keywords_value output with
  | Raise _ => acc
  | Ok k =>
      let acc1 := add_keywords k acc in
      match line_value 1 output with
      | Raise _ => acc1
      | Ok s =>
          let acc2 := add_subject s acc1 in
          match line_value 2 output with
          | Raise _ => acc2
          | Ok h => add_hierarchicalsubject h acc2
          end
      end
  end.

Definition base_command : list string :=
  ["exiftool"; "-L"; "-charset"; "filename=cp1252";
   "-Keywords"; "-Subject"; "-HierarchicalSubject"].

Definition no_fields : fields :=
  {| keywords := []; subject := []; hierarchicalsubject := [] |}.

(** [list(set((", ".join(values)).split(", ")))] *)
Definition merged_list (values : list string) : list string :=
  list_set (str_split COMMA (str_join COMMA values)).

Definition write_prefix : list string :=
  ["exiftool"; "-overwrite_original"; "-L"; "-charset"; "filename=cp1252"].

(** The argument list [apply_metadata] builds. *)
Definition write_parameters (image_path : string)
    (kws subjects hierarchicalsubjects : list string) : list string :=
  write_prefix
    ++ map (fun keyword => "-Keywords+=" +:+ keyword) kws
    ++ map (fun sub => "-Subject+=" +:+ sub) subjects
    ++ map (fun hs => "-HierarchicalSubject+=" +:+ hs) hierarchicalsubjects
    ++ [image_path].

Definition default_max_difference : Z := 1.

(** [image1_hash - image2_hash <= max_difference] *)
Definition compare_image_hashes (image1_hash image2_hash : ImageHash)
    (max_difference : Z) : result bool :=
  result_bind (hash_sub image1_hash image2_hash)
    (fun d => Ok (d <=? max_difference)%Z).

(** A [dict] as the list of its items in insertion order; assigning to a key
    that is present replaces the value in place. *)
Fixpoint dict_set {V : Type} (k : string) (v : V) (d : list (string * V))
    : list (string * V) :=
  match d with
  | [] => [(k, v)]
  | (k', v') :: d' =>
      if String.eqb k k' then (k, v) :: d' else (k', v') :: dict_set k v d'
  end.

Definition dict_of_items {V : Type} (items : list (string * V))
    : list (string * V) :=
  fold_left (fun d kv => dict_set (fst kv) (snd kv) d) items [].

Section Program.

Variable w : World.

(** [subprocess.check_output(cmd).decode()] and
    [subprocess.run(cmd, check=True)]: the command is run, then its output
    is returned or the failure is raised. *)
Definition subprocess (cmd : list string) : M string :=
  fun st =>
    (run_process w (commands (trace st)) cmd, record_event (Exec cmd) st).

Definition create_image_hash (image_path : string) : M ImageHash :=
  lift (average_hash w image_path).

(** The loop [for file in (image1_path, image2_path)]. *)
Fixpoint read_files (files : list string) (acc : fields) : M fields :=
  match files with
  | [] => mret acc
  | file :: rest =>
      output ← subprocess (base_command ++ [file]);
      read_files rest (append_values output acc)
  end.

Definition merge_metadata (image1_path image2_path : string)
    : M (list string * list string * list string) :=
  acc ← read_files [image1_path; image2_path] no_fields;
  let keywords_list := merged_list (keywords acc) in
  logger_debug ("Combined keywords of " +:+ image1_path +:+ " and "
                +:+ image2_path +:+ ": " +:+ str_join COMMA keywords_list);;
  let subject_list := merged_list (subject acc) in
  let hierarchicalsubject_list := merged_list (hierarchicalsubject acc) in
  mret (keywords_list, subject_list, hierarchicalsubject_list).

Definition apply_metadata (image_path : string)
    (kws subjects hierarchicalsubjects : list string) : M unit :=
  let parameters :=
    write_parameters image_path kws subjects hierarchicalsubjects in
  logger_info ("Adding the following keywords (and related subjects and hierarchical subjects) to "
               +:+ image_path +:+ ": " +:+ str_join COMMA kws);;
  subprocess parameters;;
  mret tt.

(** What [compare_all_images] does with a pair that passed the guard
    [image1 < image2]. *)
Definition merge_if_similar (item1 item2 : string * ImageHash) : M unit :=
  let '(image1, hash1) := item1 in
  let '(image2, hash2) := item2 in
  similar ← lift (compare_image_hashes hash1 hash2 default_max_difference);
  if (similar : bool) then
    logger_debug (image1 +:+ " and " +:+ image2
                  +:+ " seem to be similar. Merging their metadata.");;
    '(kws, subjects, hs) ← merge_metadata image1 image2;
    for_each [image1; image2]
      (fun image => apply_metadata image kws subjects hs)
  else mret tt.

(** The body of the two nested loops of [compare_all_images]. *)
Definition compare_pair (item1 item2 : string * ImageHash) : M unit :=
  if str_lt (fst item1) (fst item2)
  then merge_if_similar item1 item2
  else mret tt.

Definition compare_items (image_dict : list (string * ImageHash)) : M unit :=
  for_each image_dict (fun item1 =>
    for_each image_dict (fun item2 => compare_pair item1 item2)).

(** The dict comprehension: one hash per image file, in listing order. *)
Fixpoint hash_files (folder_path : string) (image_files : list string)
    (image_dict : list (string * ImageHash)) : M (list (string * ImageHash)) :=
  match image_files with
  | [] => mret image_dict
  | image_file :: rest =>
      h ← create_image_hash (path_join w folder_path image_file);
      hash_files folder_path rest
        (dict_set (path_join w folder_path image_file) h image_dict)
  end.

Definition is_image_file (f : string) : bool :=
  existsb (str_endswith (str_lower f)) IMAGE_EXTENSIONS.

Definition compare_all_images (folder_path : string) : M unit :=
  logger_debug ("Finding all image files in " +:+ folder_path);;
  names ← lift (listdir w folder_path);
  let image_files := List.filter is_image_file names in
  logger_debug "Calculating perceptual hashes for image files ...";;
  image_dict ← hash_files folder_path image_files [];
  logger_debug "Comparing the hashes and finding duplicates ...";;
  compare_items image_dict.

(** The loop over [sys.argv[1:]] of [main]. *)
Fixpoint read_arguments (args : list string) (folder : string) : M string :=
  match args with
  | [] => mret folder
  | arg :: rest =>
      if String.eqb arg "-v"
      then logger_setLevel DEBUG;; read_arguments rest folder
      else read_arguments rest arg
  end.

Definition main (argv : list string) : M unit :=
  if negb ((length argv =? 2)%nat || (length argv =? 3)%nat) then
    print module_doc;;
    sys_exit 1
  else
    folder ← read_arguments (tail argv) "";
    compare_all_images folder.

End Program.

(** ** Vocabulary of the properties *)

(** The command [merge_metadata] runs to read the fields of [file]. *)
Definition read_command (file : string) : list string :=
  base_command ++ [file].


(** The text of a field value up to its first [": "]. *)
Definition first_segment (value : string) : string :=
  hd "" (str_split COLON value).

(** The state after further events. *)
Definition extend (st : state) (evs : list event) : state :=
  {| trace := trace st ++ evs; logger_level := logger_level st |}.

(** What a call of [logger.debug] records at a logger level. *)
Definition debug_events (logger : level) (msg : string) : list event :=
  if level_enabled DEBUG logger then [Log DEBUG msg] else [].

Definition combined_message (image1 image2 : string) (kws : list string)
    : string :=
  "Combined keywords of " +:+ image1 +:+ " and " +:+ image2 +:+ ": "
  +:+ str_join COMMA kws.

Definition adding_message (image : string) (kws : list string) : string :=
  "Adding the following keywords (and related subjects and hierarchical subjects) to "
  +:+ image +:+ ": " +:+ str_join COMMA kws.

Definition similar_message (image1 image2 : string) : string :=
  image1 +:+ " and " +:+ image2
  +:+ " seem to be similar. Merging their metadata.".

(** What a successful call of [apply_metadata] records. *)
Definition write_events (image : string) (kws subjects hs : list string)
    : list event :=
  [Log INFO (adding_message image kws);
   Exec (write_parameters image kws subjects hs)].


(** Field-wise concatenation of accumulators. *)
Definition fields_app (a b : fields) : fields :=
  {| keywords := keywords a ++ keywords b;
     subject := subject a ++ subject b;
     hierarchicalsubject := hierarchicalsubject a ++ hierarchicalsubject b |}.


(** An image's output misses a field when one of the three subscriptions of
    the [try] statement raises [IndexError]. *)
Definition parse_fails (output : string) : Prop :=
  keywords_value output = Raise IndexError \/
  line_value 1 output = Raise IndexError \/
  line_value 2 output = Raise IndexError.

(** An output carries three lists of values when its three fields parse
    and hold exactly the values of the lists, in any order and any number
    of times. *)
Definition carries (output : string) (kws subjects hs : list string) : Prop :=
  exists rk rs rh : string,
    keywords_value output = Ok rk /\
    line_value 1 output = Ok rs /\
    line_value 2 output = Ok rh /\
    (forall v, v ∈ str_split COMMA rk <-> v ∈ kws) /\
    (forall v, v ∈ str_split COMMA rs <-> v ∈ subjects) /\
    (forall v, v ∈ str_split COMMA rh <-> v ∈ hs).

(** The pairs of items the two loops of [compare_all_images] let through
    the guard [image1 < image2], in the order of the loops. *)
Definition considered_pairs (image_dict : list (string * ImageHash))
    : list ((string * ImageHash) * (string * ImageHash)) :=
  List.filter (fun p => str_lt (fst (fst p)) (fst (snd p)))
    (list_prod image_dict image_dict).

(** The two paths of a pair of items. *)
Definition paths (p : (string * ImageHash) * (string * ImageHash))
    : string * string :=
  (fst (fst p), fst (snd p)).

(** The folder [main] settles on: the last argument that is not [-v], the
    empty string when there is none. *)
Definition chosen_folder (args : list string) : string :=
  List.last (List.filter (fun arg => negb (String.eqb arg "-v")) args) "".

(** The state in which [main] starts the comparison. *)
Definition after_arguments (args : list string) (st : state) : state :=
  {| trace := trace st;
     logger_level :=
       if existsb (fun arg => String.eqb arg "-v") args
       then DEBUG else logger_level st |}.

(** A computation grows the trace: it never drops or rewrites an event. *)
Definition grows {A : Type} (m : M A) : Prop :=
  forall st, trace st `prefix_of` trace (snd (m st)).

(** ** Concrete folders *)

Module Photos.

(** Three lines as the tool prints them. *)
Definition report (kws subjects hs : string) : string :=
  "Keywords                        : " +:+ kws +:+ CRLF
  +:+ "Subject                         : " +:+ subjects +:+ CRLF
  +:+ "Hierarchical Subject            : " +:+ hs +:+ CRLF.

Definition output_a : string := report "cat, pet" "cat, pet" "animal|cat".
Definition output_b : string := report "pet, animal" "pet" "animal|pet".
Definition output_c : string := report "cat" "cat" "animal|cat".


Definition hash_a : ImageHash :=
  [true; true; false; false; true; false; true; false].
Definition hash_b : ImageHash :=
  [true; true; false; false; true; false; true; true].

(** What the tool prints after a write. *)
Definition updated : string := "    1 image files updated".

(** A folder of two similar images and one other file; [reads] gives the
    output of the tool for each image, every other command succeeds. *)
Definition folder (reads : list (string * string)) : World :=
  {| listdir := fun _ => Ok ["b.jpg"; "a.jpg"; "notes.gif"];
     path_join := fun dir f => dir +:+ "/" +:+ f;
     average_hash := fun p =>
       if String.eqb p "photos/a.jpg" then Ok hash_a else Ok hash_b;
     run_process := fun _ cmd =>
       match List.find (fun r => bool_decide (cmd = read_command (fst r)))
               reads with
       | Some r => Ok (snd r)
       | None => Ok updated
       end |}.


(** The tool as it behaves on the two tagged images: a write adds the
    values it is given behind the values the image holds, and the reads
    that follow report them. *)
Definition merged_kws : list string := merged_list ["cat, pet"; "pet, animal"].
Definition merged_subjects : list string := merged_list ["cat, pet"; "pet"].
Definition merged_hs : list string := merged_list ["animal|cat"; "animal|pet"].

Definition output_a_written : string :=
  report ("cat, pet, " +:+ str_join COMMA merged_kws)
         ("cat, pet, " +:+ str_join COMMA merged_subjects)
         ("animal|cat, " +:+ str_join COMMA merged_hs).
Definition output_b_written : string :=
  report ("pet, animal, " +:+ str_join COMMA merged_kws)
         ("pet, " +:+ str_join COMMA merged_subjects)
         ("animal|pet, " +:+ str_join COMMA merged_hs).

Definition writing_tool : World :=
  {| listdir := fun _ => Ok ["b.jpg"; "a.jpg"; "notes.gif"];
     path_join := fun dir f => dir +:+ "/" +:+ f;
     average_hash := fun p =>
       if String.eqb p "photos/a.jpg" then Ok hash_a else Ok hash_b;
     run_process := fun history cmd =>
       let written image :=
         existsb (fun c => bool_decide
                     (c = write_parameters image merged_kws merged_subjects
                            merged_hs)) history in
       if bool_decide (cmd = read_command "photos/a.jpg") then
         Ok (if written "photos/a.jpg" then output_a_written else output_a)
       else if bool_decide (cmd = read_command "photos/b.jpg") then
         Ok (if written "photos/b.jpg" then output_b_written else output_b)
       else Ok updated |}.

Definition both_tagged : World :=
  folder [("photos/a.jpg", output_a); ("photos/b.jpg", output_b)].

Definition both_untagged : World :=
  folder [("photos/a.jpg", ""); ("photos/b.jpg", "")].

Definition one_untagged : World :=
  folder [("photos/a.jpg", ""); ("photos/b.jpg", output_c)].


End Photos.

(** A pair of items whose hashes compare as similar at the default
    threshold. *)
Definition similar_pair (p : (string * ImageHash) * (string * ImageHash))
    : bool :=
  match compare_image_hashes (snd (fst p)) (snd (snd p))
          default_max_difference with
  | Ok true => true
  | _ => false
  end.

(** The paths of the image files of a folder, as [compare_all_images]
    builds them. *)
Definition image_paths (w : World) (folder_path : string) : list string :=
  match listdir w folder_path with
  | Ok names => map (path_join w folder_path) (List.filter is_image_file names)
  | Raise _ => []
  end.

(** The events the comparison of the images at [image_paths] may record at a
    logger level: a read or a write of one of the images by the tool, an
    INFO record, and a DEBUG record when the logger is at DEBUG; nothing is
    printed. *)
Definition comparison_event (image_paths : list string) (logger : level)
    (e : event) : Prop :=
  match e with
  | Exec cmd =>
      exists p, p ∈ image_paths /\
        (cmd = read_command p \/
         exists kws subjects hs, cmd = write_parameters p kws subjects hs)
  | Log DEBUG _ => logger = DEBUG
  | Log INFO _ => True
  | Print _ => False
  end.

(** From [st] to [st'] the logger level stayed and only events of [allowed]
    were recorded. *)
Definition only_events (allowed : level -> event -> Prop) (st st' : state)
    : Prop :=
  logger_level st' = logger_level st /\
  exists evs, trace st' = trace st ++ evs /\
              Forall (allowed (logger_level st)) evs.

Definition keeps {A : Type} (allowed : level -> event -> Prop) (m : M A)
    : Prop :=
  forall st, only_events allowed st (snd (m st)).

(** ** Folders where the tool fails *)

Module Faults.

(** The tool answers the reads listed in [reads] and fails on every other
    command. *)
Definition tool (reads : list (string * string)) : World :=
  {| listdir := fun _ => Ok ["b.jpg"; "a.jpg"; "notes.gif"];
     path_join := fun dir f => dir +:+ "/" +:+ f;
     average_hash := fun p =>
       if String.eqb p "photos/a.jpg" then Ok Photos.hash_a
       else Ok Photos.hash_b;
     run_process := fun _ cmd =>
       match List.find (fun r => bool_decide (cmd = read_command (fst r)))
               reads with
       | Some r => Ok (snd r)
       | None => Raise CalledProcessError
       end |}.

Definition no_read : World := tool [].

Definition one_read : World := tool [("photos/a.jpg", Photos.output_a)].

Definition no_write : World :=
  tool [("photos/a.jpg", Photos.output_c); ("photos/b.jpg", Photos.output_c)].


End Faults.

(** * Properties *)

(** ** Splitting on a separator of two different characters

    The three separators of the program, [", "], [": "] and ["\r\n"], are
    made of two different characters, so no occurrence of one can overlap
    another occurrence. *)

Section TwoCharSeparator.

Variables c1 c2 : ascii.
Hypothesis c1_neq_c2 : c1 <> c2.

Let sep : string := String c1 (String c2 "").

Lemma prefix_sep_cons (c : ascii) (s : string) :
  String.prefix sep (String c s) = true <->
  c = c1 /\ exists r, s = String c2 r.
Proof.
  clear c1_neq_c2.
  unfold sep; simpl. destruct (ascii_dec c1 c) as [->|Hc].
  - destruct s as [|d r]; simpl.
    + split; [discriminate | intros [_ [r Hr]]; discriminate].
    + destruct (ascii_dec c2 d) as [->|Hd].
      * split; [eauto | intros _; destruct r; reflexivity].
      * split; [discriminate | intros [_ [r' Hr]]; congruence].
  - split; [discriminate | intros [-> _]; congruence].
Qed.

Lemma prefix_sep_here (b : string) :
  String.prefix sep (String c1 (String c2 b)) = true.
Proof. apply prefix_sep_cons; eauto. Qed.

(** No occurrence of the separator starts at a character that is followed
    by the separator, unless it starts there without it. *)
Lemma prefix_sep_before (c : ascii) (a b : string) :
  String.prefix sep (String c a) = false ->
  String.prefix sep (String c (a +:+ sep +:+ b)) = false.
Proof.
  intros Hp. apply not_true_is_false. intros Hq.
  apply prefix_sep_cons in Hq as [-> [r Hr]].
  destruct a as [|d a'].
  - change (String c1 (String c2 b) = String c2 r) in Hr. congruence.
  - change (String d (a' +:+ sep +:+ b) = String c2 r) in Hr.
    injection Hr as -> _.
    rewrite prefix_sep_here in Hp. discriminate.
Qed.

Lemma split_from_not_nil (k : nat) (m : option nat) (s : string) :
  split_from sep k m s <> [].
Proof.
  clear c1_neq_c2. revert k m.
  induction s as [|c s IH]; intros k m; cbn [split_from]; [congruence|].
  destruct k; [|apply IH].
  destruct (may_split m && String.prefix sep (String c s)); [congruence|].
  specialize (IH 0%nat m). destruct (split_from sep 0 m s); simpl; congruence.
Qed.

Lemma cons_first_app (c : ascii) (xs ys : list string) :
  xs <> [] -> cons_first c (xs ++ ys) = cons_first c xs ++ ys.
Proof. clear. destruct xs; [congruence | reflexivity]. Qed.

Lemma split_from_skip (m : option nat) (c : ascii) (s : string) :
  split_from sep 1 m (String c s) = split_from sep 0 m s.
Proof. reflexivity. Qed.

(** With no split left the text stays whole. *)
Lemma split_from_exhausted (s : string) :
  split_from sep 0 (Some 0%nat) s = [s].
Proof.
  induction s as [|c s IH]; [reflexivity|].
  cbn [split_from may_split andb]. rewrite IH. reflexivity.
Qed.

(** Splitting [a + sep + b] splits [a] and [b] apart. *)
Lemma split_from_app (b : string) (a : string) (k : nat) :
  (k <= String.length a)%nat ->
  split_from sep k None (a +:+ sep +:+ b)
  = split_from sep k None a ++ split_from sep 0 None b.
Proof.
  revert k. induction a as [|c a IH]; intros k Hk.
  - simpl in Hk. assert (k = 0%nat) as -> by lia.
    change ("" +:+ sep +:+ b) with (String c1 (String c2 b)).
    cbn [split_from may_split andb after_split].
    rewrite prefix_sep_here. reflexivity.
  - change (String c a +:+ sep +:+ b) with (String c (a +:+ sep +:+ b)).
    destruct k as [|k]; cbn [split_from may_split andb].
    + destruct (String.prefix sep (String c a)) eqn:Hp.
      * pose proof Hp as Hq.
        apply prefix_sep_cons in Hq as [-> [r ->]].
        change (String c2 r +:+ sep +:+ b)
          with (String c2 (r +:+ sep +:+ b)).
        rewrite prefix_sep_here. cbn [after_split].
        change (String c2 (r +:+ sep +:+ b))
          with (String c2 r +:+ sep +:+ b).
        rewrite IH by (simpl; lia). reflexivity.
      * rewrite prefix_sep_before by exact Hp.
        rewrite IH by lia. apply cons_first_app, split_from_not_nil.
    + apply IH. simpl in Hk. lia.
Qed.

(** A text without the separator is its own single piece. *)
Lemma split_from_free (m : option nat) (a : string) :
  str_contains sep a = false -> split_from sep 0 m a = [a].
Proof.
  induction a as [|c a IH]; intros Hf; [reflexivity|].
  cbn [str_contains] in Hf. apply orb_false_elim in Hf as [Hp Ha].
  cbn [split_from]. rewrite Hp, andb_false_r, IH by exact Ha. reflexivity.
Qed.

(** The first cut falls at the first occurrence of the separator. *)
Lemma split_from_first (m : option nat) (a b : string) :
  str_contains sep a = false ->
  split_from sep 0 m (a +:+ sep +:+ b)
  = if may_split m then a :: split_from sep 0 (after_split m) b
    else [a +:+ sep +:+ b].
Proof.
  destruct (may_split m) eqn:Hm.
  - induction a as [|c a IH]; intros Hf.
    + change ("" +:+ sep +:+ b) with (String c1 (String c2 b)).
      cbn [split_from]. rewrite Hm, prefix_sep_here. reflexivity.
    + cbn [str_contains] in Hf. apply orb_false_elim in Hf as [Hp Ha].
      change (String c a +:+ sep +:+ b) with (String c (a +:+ sep +:+ b)).
      cbn [split_from].
      rewrite prefix_sep_before, andb_false_r, IH by assumption.
      reflexivity.
  - intros _. destruct m as [[|n]|]; try discriminate.
    apply split_from_exhausted.
Qed.

(** A text that contains the separator has a first occurrence of it. *)
Lemma str_contains_first (s : string) :
  str_contains sep s = true ->
  exists a b, s = a +:+ sep +:+ b /\ str_contains sep a = false.
Proof.
  induction s as [|c s IH]; intros Hs.
  - discriminate.
  - cbn [str_contains] in Hs.
    destruct (String.prefix sep (String c s)) eqn:Hp.
    + apply prefix_sep_cons in Hp as [-> [r ->]].
      exists "", r. split; [reflexivity|]. reflexivity.
    + destruct (IH Hs) as (a & b & -> & Ha).
      exists (String c a), b. split; [reflexivity|].
      cbn [str_contains]. rewrite Ha, orb_false_r.
      apply not_true_is_false. intros Hq.
      apply prefix_sep_cons in Hq as [-> [r ->]].
      change (String c2 r +:+ sep +:+ b)
        with (String c2 (r +:+ sep +:+ b)) in Hp.
      rewrite prefix_sep_here in Hp. discriminate.
Qed.

(** The first piece of a split is the text before the first occurrence of
    the separator, or the whole text when there is none. *)
Lemma str_split_first_piece (s : string) :
  exists p ps,
    str_split sep s = p :: ps /\
    str_contains sep p = false /\
    (if str_contains sep s
     then exists rest, s = p +:+ sep +:+ rest /\ ps = str_split sep rest
     else s = p /\ ps = []).
Proof.
  destruct (str_contains sep s) eqn:Hs.
  - destruct (str_contains_first s Hs) as (a & b & -> & Ha).
    exists a, (str_split sep b). unfold str_split.
    rewrite split_from_first by exact Ha.
    split; [reflexivity|]. split; [exact Ha|]. eauto.
  - exists s, []. unfold str_split.
    rewrite split_from_free by exact Hs. auto.
Qed.

End TwoCharSeparator.

(** ** The separators of the program *)

Lemma comma_chars : ","%char <> " "%char.
Proof. discriminate. Qed.

Lemma colon_chars : ":"%char <> " "%char.
Proof. discriminate. Qed.

Lemma crlf_chars : "013"%char <> "010"%char.
Proof. discriminate. Qed.

(** Joining on [", "] and splitting again splits every joined text. *)
Lemma str_split_join_comma (values : list string) :
  values <> [] ->
  str_split COMMA (str_join COMMA values) = flat_map (str_split COMMA) values.
Proof.
  induction values as [|x [|y rest] IH]; intros Hne.
  - congruence.
  - simpl. symmetry. apply app_nil_r.
  - change (str_join COMMA (x :: y :: rest))
      with (x +:+ COMMA +:+ str_join COMMA (y :: rest)).
    change (flat_map (str_split COMMA) (x :: y :: rest))
      with (str_split COMMA x ++ flat_map (str_split COMMA) (y :: rest)).
    rewrite <- IH by congruence.
    apply (split_from_app _ _ comma_chars). lia.
Qed.

(** ** Sets as lists *)

Lemma elem_of_list_set (xs : list string) (v : string) :
  v ∈ list_set xs <-> v ∈ xs.
Proof.
  unfold list_set. split; intros H.
  - apply elem_of_elements in H. by apply elem_of_list_to_set in H.
  - apply elem_of_elements. by apply elem_of_list_to_set.
Qed.

Lemma NoDup_list_set (xs : list string) : NoDup (list_set xs).
Proof. unfold list_set. apply NoDup_elements. Qed.

Lemma list_set_singleton (x : string) : list_set [x] = [x].
Proof.
  unfold list_set. simpl. rewrite (right_id_L ∅ (∪)). apply elements_singleton.
Qed.

(** Two lists with the same members give the same set. *)
Lemma list_set_permutation (xs ys : list string) :
  (forall v, v ∈ xs <-> v ∈ ys) -> list_set xs ≡ₚ list_set ys.
Proof.
  intros H. apply NoDup_Permutation; try apply NoDup_list_set.
  intros v. rewrite !elem_of_list_set. apply H.
Qed.

Lemma merged_list_nil : merged_list [] = [""].
Proof. apply (list_set_singleton ""). Qed.

Lemma NoDup_merged_list (values : list string) : NoDup (merged_list values).
Proof. apply NoDup_list_set. Qed.

(** The merged list of a non-empty accumulator holds the values of its
    texts and nothing else. *)
Lemma elem_of_merged_list (values : list string) (v : string) :
  values <> [] ->
  v ∈ merged_list values <-> v ∈ flat_map (str_split COMMA) values.
Proof.
  intros Hne. unfold merged_list.
  rewrite elem_of_list_set, str_split_join_comma by exact Hne. tauto.
Qed.

(** ** Running the monad *)

Lemma bind_ok {A B : Type} (m : M A) (f : A -> M B) (st st' : state) (a : A) :
  m st = (Ok a, st') -> (m ≫= f) st = f a st'.
Proof. intros H. unfold mbind, M_bind, bind. rewrite H. reflexivity. Qed.

Lemma bind_raise {A B : Type} (m : M A) (f : A -> M B) (st st' : state)
    (e : exn) :
  m st = (Raise e, st') -> (m ≫= f) st = (Raise e, st').
Proof. intros H. unfold mbind, M_bind, bind. rewrite H. reflexivity. Qed.

Lemma extend_nil (st : state) : extend st [] = st.
Proof. destruct st. unfold extend. simpl. rewrite app_nil_r. reflexivity. Qed.

Lemma extend_extend (st : state) (evs1 evs2 : list event) :
  extend (extend st evs1) evs2 = extend st (evs1 ++ evs2).
Proof. unfold extend. simpl. rewrite app_assoc. reflexivity. Qed.

Lemma commands_app (tr1 tr2 : list event) :
  commands (tr1 ++ tr2) = commands tr1 ++ commands tr2.
Proof. apply flat_map_app. Qed.

Lemma logger_debug_run (msg : string) (st : state) :
  logger_debug msg st = (Ok tt, extend st (debug_events (logger_level st) msg)).
Proof.
  unfold logger_debug, logger_log, debug_events.
  destruct (level_enabled DEBUG (logger_level st)).
  - reflexivity.
  - rewrite extend_nil. reflexivity.
Qed.

Lemma logger_info_run (msg : string) (st : state) :
  logger_info msg st = (Ok tt, extend st [Log INFO msg]).
Proof.
  unfold logger_info, logger_log.
  destruct (logger_level st); reflexivity.
Qed.

Lemma debug_events_commands (lvl : level) (msg : string) :
  commands (debug_events lvl msg) = [].
Proof. unfold debug_events. destruct (level_enabled DEBUG lvl); reflexivity. Qed.

Section Runs.

Variable w : World.

Lemma subprocess_run (cmd : list string) (st : state) :
  subprocess w cmd st
  = (run_process w (commands (trace st)) cmd, extend st [Exec cmd]).
Proof. reflexivity. Qed.

(** [merge_metadata] returns when the tool answers both reads. *)
Lemma merge_metadata_run (image1 image2 output1 output2 : string)
    (st : state) :
  run_process w (commands (trace st)) (read_command image1) = Ok output1 ->
  run_process w (commands (trace st) ++ [read_command image1])
    (read_command image2) = Ok output2 ->
  let acc := append_values output2 (append_values output1 no_fields) in
  merge_metadata w image1 image2 st
  = (Ok (merged_list (keywords acc), merged_list (subject acc),
         merged_list (hierarchicalsubject acc)),
     extend st ([Exec (read_command image1); Exec (read_command image2)]
                ++ debug_events (logger_level st)
                     (combined_message image1 image2
                        (merged_list (keywords acc))))).
Proof.
  intros H1 H2 acc. unfold read_command in *.
  unfold merge_metadata, read_files.
  erewrite bind_ok; cycle 1.
  { erewrite bind_ok; cycle 1.
    { rewrite subprocess_run, H1. reflexivity. }
    erewrite bind_ok; cycle 1.
    { rewrite subprocess_run. cbn [extend trace].
      rewrite commands_app. cbn [commands flat_map app].
      rewrite H2. reflexivity. }
    reflexivity. }
  fold acc. erewrite bind_ok; cycle 1.
  { apply logger_debug_run. }
  unfold mret, M_ret, ret. rewrite !extend_extend. reflexivity.
Qed.

(** [apply_metadata] logs and runs the one command it has built; it
    returns when the command succeeds. *)
Lemma apply_metadata_state (image : string) (kws subjects hs : list string)
    (st : state) :
  snd (apply_metadata w image kws subjects hs st)
  = extend st (write_events image kws subjects hs).
Proof.
  unfold apply_metadata. erewrite bind_ok by apply logger_info_run.
  unfold mbind, M_bind, bind. rewrite subprocess_run.
  destruct (run_process _ _ _); cbn [snd mret M_ret ret];
    rewrite extend_extend; reflexivity.
Qed.

Lemma apply_metadata_run (image : string) (kws subjects hs : list string)
    (st : state) (out : string) :
  run_process w (commands (trace st))
    (write_parameters image kws subjects hs) = Ok out ->
  apply_metadata w image kws subjects hs st
  = (Ok tt, extend st (write_events image kws subjects hs)).
Proof.
  intros H. unfold apply_metadata. erewrite bind_ok by apply logger_info_run.
  erewrite bind_ok; cycle 1.
  { rewrite subprocess_run. cbn [extend trace]. rewrite commands_app.
    cbn [commands flat_map app]. rewrite app_nil_r, H. reflexivity. }
  unfold mret, M_ret, ret. rewrite extend_extend. reflexivity.
Qed.

End Runs.

(** ** Accumulating the fields *)

Lemma fields_app_no_fields (acc : fields) : fields_app no_fields acc = acc.
Proof. destruct acc. reflexivity. Qed.

(** What an output appends does not depend on what was appended before. *)
Lemma append_values_acc (output : string) (acc : fields) :
  append_values output acc = fields_app acc (append_values output no_fields).
Proof.
  unfold append_values.
  destruct (keywords_value output) as [k|].
  - destruct (line_value 1 output) as [s|].
    + destruct (line_value 2 output) as [h|]; destruct acc;
        unfold fields_app; cbn; rewrite ?app_nil_r; reflexivity.
    + destruct acc; unfold fields_app; cbn; rewrite ?app_nil_r; reflexivity.
  - destruct acc; unfold fields_app; cbn; rewrite ?app_nil_r; reflexivity.
Qed.


(** ** Merging the fields of a pair *)



(** The scenario of the two tagged images: the merged keywords are
    cat, pet and animal. *)
Example merged_keywords_scenario (v : string) :
  v ∈ merged_list ["cat, pet"; "pet, animal"]
  <-> v = "cat" \/ v = "pet" \/ v = "animal".
Proof.
  rewrite elem_of_merged_list by discriminate.
  change (flat_map (str_split COMMA) ["cat, pet"; "pet, animal"])
    with ["cat"; "pet"; "pet"; "animal"].
  rewrite !elem_of_cons, elem_of_nil. tauto.
Qed.

(** ** Nothing parsed *)

(** C9: when the three accumulators stay empty after both images were read,
    [merge_metadata] returns three times the list of the empty string, and
    [apply_metadata] runs with one bare additive directive per field. *)
Theorem merge_metadata_nothing_parsed (w : World) (st : state)
    (image1 image2 output1 output2 : string) :
  run_process w (commands (trace st)) (read_command image1) = Ok output1 ->
  run_process w (commands (trace st) ++ [read_command image1])
    (read_command image2) = Ok output2 ->
  append_values output2 (append_values output1 no_fields) = no_fields ->
  (exists st' : state,
     merge_metadata w image1 image2 st = (Ok ([""], [""], [""]), st')) /\
  forall (image : string) (st2 : state),
    snd (apply_metadata w image [""] [""] [""] st2)
    = extend st2
        [Log INFO (adding_message image [""]);
         Exec (write_prefix
               ++ ["-Keywords+="; "-Subject+="; "-HierarchicalSubject+="]
               ++ [image])].
Proof.
  intros H1 H2 Hacc. split.
  - eexists. rewrite (merge_metadata_run w _ _ _ _ _ H1 H2), Hacc.
    cbn [keywords subject hierarchicalsubject no_fields].
    rewrite merged_list_nil. reflexivity.
  - intros image st2. apply apply_metadata_state.
Qed.

Lemma merge_metadata_nothing_parsed_witness :
  (exists st' : state,
     merge_metadata Photos.both_untagged "photos/a.jpg" "photos/b.jpg"
       initial_state = (Ok ([""], [""], [""]), st')) /\
  forall (image : string) (st2 : state),
    snd (apply_metadata Photos.both_untagged image [""] [""] [""] st2)
    = extend st2
        [Log INFO (adding_message image [""]);
         Exec (write_prefix
               ++ ["-Keywords+="; "-Subject+="; "-HierarchicalSubject+="]
               ++ [image])].
Proof.
  apply (merge_metadata_nothing_parsed Photos.both_untagged initial_state
           "photos/a.jpg" "photos/b.jpg" "" ""); reflexivity.
Defined.

(** ** The trace only grows *)

Lemma grows_ret {A : Type} (a : A) : grows (mret a).
Proof. intros st. reflexivity. Qed.

Lemma grows_lift {A : Type} (r : result A) : grows (lift r).
Proof. intros st. reflexivity. Qed.

Lemma grows_bind {A B : Type} (m : M A) (f : A -> M B) :
  grows m -> (forall a, grows (f a)) -> grows (m ≫= f).
Proof.
  intros Hm Hf st. unfold mbind, M_bind, bind.
  specialize (Hm st). destruct (m st) as [[a|e] st1]; cbn [snd] in *.
  - etransitivity; [exact Hm | apply Hf].
  - exact Hm.
Qed.

Lemma grows_logger_log (lvl : level) (msg : string) :
  grows (logger_log lvl msg).
Proof.
  intros st. unfold logger_log.
  destruct (level_enabled lvl (logger_level st)); cbn [snd].
  - apply prefix_app_r. reflexivity.
  - reflexivity.
Qed.

Lemma grows_for_each {A : Type} (xs : list A) (body : A -> M unit) :
  (forall x, grows (body x)) -> grows (for_each xs body).
Proof.
  intros Hb. induction xs as [|x xs IH]; cbn [for_each].
  - apply (grows_ret tt).
  - apply grows_bind; [apply Hb | intros _; exact IH].
Qed.

(** A loop that ends without an exception has run its body on every
    element, and what the body recorded is still in the trace. *)
Lemma for_each_ok_elem {A : Type} (xs : list A) (body : A -> M unit)
    (st st' : state) (x : A) :
  (forall y, grows (body y)) ->
  for_each xs body st = (Ok tt, st') ->
  x ∈ xs ->
  exists st1 st2 after,
    body x st1 = (Ok tt, st2) /\ trace st' = trace st2 ++ after.
Proof.
  intros Hb. revert st. induction xs as [|y ys IH]; intros st Hrun Hx.
  - inversion Hx.
  - cbn [for_each] in Hrun. unfold mbind, M_bind, bind in Hrun.
    destruct (body y st) as [[[]|e] st1] eqn:Hy; [|discriminate].
    apply elem_of_cons in Hx as [->|Hx].
    + destruct (grows_for_each ys body Hb st1) as [after Hafter].
      rewrite Hrun in Hafter. cbn [snd] in Hafter. eauto.
    + exact (IH st1 Hrun Hx).
Qed.

Section Growth.

Variable w : World.

Lemma grows_subprocess (cmd : list string) : grows (subprocess w cmd).
Proof. intros st. cbn. apply prefix_app_r. reflexivity. Qed.

Lemma grows_read_files (files : list string) (acc : fields) :
  grows (read_files w files acc).
Proof.
  revert acc. induction files as [|f files IH]; intros acc; cbn [read_files].
  - apply grows_ret.
  - apply grows_bind; [apply grows_subprocess | intros out; apply IH].
Qed.

Lemma grows_merge_metadata (image1 image2 : string) :
  grows (merge_metadata w image1 image2).
Proof.
  unfold merge_metadata. apply grows_bind; [apply grows_read_files|].
  intros acc. apply grows_bind; [apply grows_logger_log|].
  intros _. apply grows_ret.
Qed.

Lemma grows_apply_metadata (image : string) (kws subjects hs : list string) :
  grows (apply_metadata w image kws subjects hs).
Proof.
  unfold apply_metadata. apply grows_bind; [apply grows_logger_log|].
  intros _. apply grows_bind; [apply grows_subprocess|].
  intros _. apply grows_ret.
Qed.

Lemma grows_merge_if_similar (item1 item2 : string * ImageHash) :
  grows (merge_if_similar w item1 item2).
Proof.
  destruct item1 as [image1 hash1], item2 as [image2 hash2].
  unfold merge_if_similar. apply grows_bind; [apply grows_lift|].
  intros [|]; [|apply grows_ret].
  apply grows_bind; [apply grows_logger_log|]. intros _.
  apply grows_bind; [apply grows_merge_metadata|]. intros [[kws subjects] hs].
  apply grows_for_each. intros image. apply grows_apply_metadata.
Qed.

Lemma grows_compare_pair (item1 item2 : string * ImageHash) :
  grows (compare_pair w item1 item2).
Proof.
  unfold compare_pair. destruct (str_lt (fst item1) (fst item2)).
  - apply grows_merge_if_similar.
  - apply grows_ret.
Qed.

(** [apply_metadata] records its two events whether the command succeeds
    or not. *)
Lemma apply_metadata_cases (image : string) (kws subjects hs : list string)
    (st : state) :
  exists r : result unit,
    apply_metadata w image kws subjects hs st
    = (r, extend st (write_events image kws subjects hs)).
Proof.
  exists (fst (apply_metadata w image kws subjects hs st)).
  rewrite <- (apply_metadata_state w). apply surjective_pairing.
Qed.

(** A similar pair whose processing ends without an exception was merged
    and both images were written with the merged lists. *)
Lemma merge_if_similar_ok (image1 image2 : string) (hash1 hash2 : ImageHash)
    (st st' : state) :
  compare_image_hashes hash1 hash2 default_max_difference = Ok true ->
  merge_if_similar w (image1, hash1) (image2, hash2) st = (Ok tt, st') ->
  exists (kws subjects hs : list string) (st1 : state),
    merge_metadata w image1 image2
      (extend st (debug_events (logger_level st)
                    (similar_message image1 image2)))
    = (Ok (kws, subjects, hs), st1) /\
    st' = extend st1 (write_events image1 kws subjects hs
                      ++ write_events image2 kws subjects hs).
Proof.
  intros Hsim Hrun. unfold merge_if_similar in Hrun.
  erewrite bind_ok in Hrun by (unfold lift; rewrite Hsim; reflexivity).
  cbv beta iota in Hrun.
  erewrite bind_ok in Hrun by apply logger_debug_run.
  fold (similar_message image1 image2) in Hrun.
  unfold mbind at 1, M_bind, bind in Hrun.
  destruct (merge_metadata w image1 image2 _)
    as [[[[kws subjects] hs]|e] st1] eqn:Hm; [|discriminate].
  exists kws, subjects, hs, st1. split; [reflexivity|].
  cbn [for_each] in Hrun. unfold mbind, M_bind, bind in Hrun.
  destruct (apply_metadata_cases image1 kws subjects hs st1) as [r1 H1].
  rewrite H1 in Hrun. destruct r1 as [[]|e1]; [|discriminate].
  destruct (apply_metadata_cases image2 kws subjects hs
              (extend st1 (write_events image1 kws subjects hs)))
    as [r2 H2].
  rewrite H2 in Hrun. destruct r2 as [[]|e2]; [|discriminate].
  injection Hrun as <-. rewrite extend_extend. reflexivity.
Qed.

End Growth.

(** ** Comparing hashes *)

Lemma hamming_nonneg (h1 h2 : list bool) : (0 <= hamming h1 h2)%Z.
Proof.
  revert h2. induction h1 as [|b1 t1 IH]; intros [|b2 t2]; cbn; try lia.
  specialize (IH t2). destruct (Bool.eqb b1 b2); lia.
Qed.

Lemma hamming_sym (h1 h2 : list bool) : hamming h1 h2 = hamming h2 h1.
Proof.
  revert h2. induction h1 as [|b1 t1 IH]; intros [|b2 t2]; cbn; try reflexivity.
  rewrite (IH t2). destruct b1, b2; reflexivity.
Qed.

Lemma hamming_zero (h1 h2 : list bool) :
  length h1 = length h2 -> hamming h1 h2 = 0%Z <-> h1 = h2.
Proof.
  revert h2. induction h1 as [|b1 t1 IH]; intros [|b2 t2] Hlen;
    try discriminate; cbn.
  - tauto.
  - injection Hlen as Hlen. specialize (IH t2 Hlen).
    pose proof (hamming_nonneg t1 t2) as Hpos.
    destruct b1, b2; cbn [Bool.eqb]; split; intros H1.
    + f_equal. apply IH. lia.
    + injection H1 as H1. apply IH in H1. lia.
    + lia.
    + discriminate.
    + lia.
    + discriminate.
    + f_equal. apply IH. lia.
    + injection H1 as H1. apply IH in H1. lia.
Qed.

Lemma hash_sub_sym (h1 h2 : ImageHash) : hash_sub h1 h2 = hash_sub h2 h1.
Proof.
  unfold hash_sub. rewrite Nat.eqb_sym, hamming_sym. reflexivity.
Qed.

Lemma compare_image_hashes_sym (h1 h2 : ImageHash) (t : Z) :
  compare_image_hashes h1 h2 t = compare_image_hashes h2 h1 t.
Proof. unfold compare_image_hashes. rewrite hash_sub_sym. reflexivity. Qed.

(** ** The order on paths *)

Lemma str_lt_irrefl (a : string) : str_lt a a = false.
Proof.
  unfold str_lt, String.ltb.
  destruct (String.compare a a) eqn:E; try reflexivity.
  pose proof (String.compare_antisym a a) as H. rewrite E in H. discriminate.
Qed.

Lemma str_lt_asym (a b : string) : str_lt a b = true -> str_lt b a = false.
Proof.
  unfold str_lt, String.ltb. rewrite (String.compare_antisym b a).
  destruct (String.compare a b); cbn; congruence.
Qed.

Lemma str_lt_total (a b : string) :
  a <> b -> str_lt a b = true \/ str_lt b a = true.
Proof.
  intros Hne. unfold str_lt, String.ltb. rewrite (String.compare_antisym b a).
  destruct (String.compare a b) eqn:E; cbn; auto.
  apply String.compare_eq_iff in E. contradiction.
Qed.

(** ** Writing both images of a similar pair *)

Section Pairs.

Variable w : World.

(** The two loops reach every pair of items of the dict. *)
Lemma compare_items_ok_pair (image_dict : list (string * ImageHash))
    (st st' : state) (item1 item2 : string * ImageHash) :
  compare_items w image_dict st = (Ok tt, st') ->
  item1 ∈ image_dict -> item2 ∈ image_dict ->
  exists st1 st2 after,
    compare_pair w item1 item2 st1 = (Ok tt, st2) /\
    trace st' = trace st2 ++ after.
Proof.
  intros Hrun H1 H2. unfold compare_items in Hrun.
  apply (for_each_ok_elem _ _ _ _ item1) in Hrun
    as (sa & sb & after1 & Hinner & Htr1); [|clear; intros y|exact H1].
  2:{ apply grows_for_each. intros x. apply grows_compare_pair. }
  apply (for_each_ok_elem _ _ _ _ item2) in Hinner
    as (sc & sd & after2 & Hpair & Htr2);
    [|intros y; apply grows_compare_pair|exact H2].
  exists sc, sd, (after2 ++ after1). split; [exact Hpair|].
  rewrite Htr1, Htr2, app_assoc. reflexivity.
Qed.

Lemma compare_items_ok_ordered (image_dict : list (string * ImageHash))
    (st st' : state) (image1 image2 : string) (hash1 hash2 : ImageHash) :
  compare_items w image_dict st = (Ok tt, st') ->
  (image1, hash1) ∈ image_dict -> (image2, hash2) ∈ image_dict ->
  str_lt image1 image2 = true ->
  compare_image_hashes hash1 hash2 default_max_difference = Ok true ->
  exists (kws subjects hs : list string) (st0 st1 : state)
         (after : list event),
    merge_metadata w image1 image2 st0 = (Ok (kws, subjects, hs), st1) /\
    trace st' = trace st1
                ++ write_events image1 kws subjects hs
                ++ write_events image2 kws subjects hs
                ++ after.
Proof.
  intros Hrun H1 H2 Hlt Hsim.
  destruct (compare_items_ok_pair _ _ _ _ _ Hrun H1 H2)
    as (sa & sb & after & Hpair & Htr).
  unfold compare_pair in Hpair. cbn [fst] in Hpair. rewrite Hlt in Hpair.
  apply merge_if_similar_ok in Hpair
    as (kws & subjects & hs & st1 & Hmerge & ->); [|exact Hsim].
  eexists kws, subjects, hs, _, st1, after. split; [exact Hmerge|].
  rewrite Htr. cbn [extend trace]. rewrite <- !app_assoc. reflexivity.
Qed.

End Pairs.

(** C2: in a run of the comparison that ends without an exception, any two
    images of the folder whose hashes differ by at most the threshold were
    merged: [merge_metadata] returned three lists for the pair, and
    [apply_metadata] then ran on the first and on the second image of the
    pair, one after the other, with these same three lists. *)
Theorem similar_images_written_alike (w : World)
    (image_dict : list (string * ImageHash)) (st st' : state)
    (image1 image2 : string) (hash1 hash2 : ImageHash) (distance : Z) :
  compare_items w image_dict st = (Ok tt, st') ->
  (image1, hash1) ∈ image_dict ->
  (image2, hash2) ∈ image_dict ->
  image1 <> image2 ->
  hash_sub hash1 hash2 = Ok distance ->
  (distance <= default_max_difference)%Z ->
  let first := if str_lt image1 image2 then image1 else image2 in
  let second := if str_lt image1 image2 then image2 else image1 in
  exists (kws subjects hs : list string) (st0 st1 : state)
         (after : list event),
    merge_metadata w first second st0 = (Ok (kws, subjects, hs), st1) /\
    trace st' = trace st1
                ++ [Log INFO (adding_message first kws);
                    Exec (write_parameters first kws subjects hs);
                    Log INFO (adding_message second kws);
                    Exec (write_parameters second kws subjects hs)]
                ++ after.
Proof.
  intros Hrun H1 H2 Hne Hd Hle first second.
  assert (compare_image_hashes hash1 hash2 default_max_difference = Ok true)
    as Hsim.
  { unfold compare_image_hashes. rewrite Hd. cbn [result_bind].
    f_equal. apply Z.leb_le. exact Hle. }
  subst first second. destruct (str_lt image1 image2) eqn:Hlt.
  - apply (compare_items_ok_ordered w _ _ _ _ _ _ _ Hrun H1 H2 Hlt Hsim).
  - destruct (str_lt_total image1 image2 Hne) as [Hlt'|Hlt']; [congruence|].
    rewrite compare_image_hashes_sym in Hsim.
    apply (compare_items_ok_ordered w _ _ _ _ _ _ _ Hrun H2 H1 Hlt' Hsim).
Qed.

Lemma similar_images_written_alike_witness :
  let image_dict :=
    [("photos/b.jpg", Photos.hash_b); ("photos/a.jpg", Photos.hash_a)] in
  let st' := snd (compare_items Photos.both_tagged image_dict initial_state) in
  exists (kws subjects hs : list string) (st0 st1 : state)
         (after : list event),
    merge_metadata Photos.both_tagged "photos/a.jpg" "photos/b.jpg" st0
    = (Ok (kws, subjects, hs), st1) /\
    trace st' = trace st1
                ++ [Log INFO (adding_message "photos/a.jpg" kws);
                    Exec (write_parameters "photos/a.jpg" kws subjects hs);
                    Log INFO (adding_message "photos/b.jpg" kws);
                    Exec (write_parameters "photos/b.jpg" kws subjects hs)]
                ++ after.
Proof.
  intros image_dict st'.
  apply (similar_images_written_alike Photos.both_tagged image_dict
           initial_state st' "photos/b.jpg" "photos/a.jpg"
           Photos.hash_b Photos.hash_a 1).
  - vm_compute. reflexivity.
  - apply list_elem_of_here.
  - apply list_elem_of_further, list_elem_of_here.
  - discriminate.
  - reflexivity.
  - unfold default_max_difference. lia.
Defined.

(** ** A pair with an image that does not parse *)

Section PairRun.

Variable w : World.

(** A similar pair is read, merged and written when the tool succeeds. *)
Lemma merge_if_similar_run (image1 image2 : string)
    (hash1 hash2 : ImageHash) (output1 output2 out1 out2 : string)
    (st : state) :
  compare_image_hashes hash1 hash2 default_max_difference = Ok true ->
  let history := commands (trace st) in
  let acc := append_values output2 (append_values output1 no_fields) in
  let kws := merged_list (keywords acc) in
  let subjects := merged_list (subject acc) in
  let hs := merged_list (hierarchicalsubject acc) in
  run_process w history (read_command image1) = Ok output1 ->
  run_process w (history ++ [read_command image1]) (read_command image2)
  = Ok output2 ->
  run_process w (history ++ [read_command image1; read_command image2])
    (write_parameters image1 kws subjects hs) = Ok out1 ->
  run_process w
    (history ++ [read_command image1; read_command image2;
                 write_parameters image1 kws subjects hs])
    (write_parameters image2 kws subjects hs) = Ok out2 ->
  merge_if_similar w (image1, hash1) (image2, hash2) st
  = (Ok tt,
     extend st
       (debug_events (logger_level st) (similar_message image1 image2)
        ++ [Exec (read_command image1); Exec (read_command image2)]
        ++ debug_events (logger_level st)
             (combined_message image1 image2 kws)
        ++ write_events image1 kws subjects hs
        ++ write_events image2 kws subjects hs)).
Proof.
  intros Hsim history acc kws subjects hs Hr1 Hr2 Hw1 Hw2.
  unfold merge_if_similar.
  erewrite bind_ok by (unfold lift; rewrite Hsim; reflexivity).
  cbv beta iota.
  erewrite bind_ok by apply logger_debug_run.
  fold (similar_message image1 image2).
  erewrite bind_ok; cycle 1.
  { apply (merge_metadata_run w image1 image2 output1 output2);
      cbn [extend trace]; rewrite commands_app, debug_events_commands,
        app_nil_r; assumption. }
  cbv beta iota. fold acc. fold kws subjects hs. cbn [for_each].
  erewrite bind_ok; cycle 1.
  { apply (apply_metadata_run w _ _ _ _ _ out1).
    cbn [extend trace logger_level].
    rewrite !commands_app, !debug_events_commands, app_nil_r.
    exact Hw1. }
  erewrite bind_ok; cycle 1.
  { apply (apply_metadata_run w _ _ _ _ _ out2).
    cbn [extend trace logger_level].
    rewrite !commands_app, !debug_events_commands, app_nil_r.
    cbn [commands flat_map app write_events]. rewrite <- app_assoc.
    exact Hw2. }
  unfold mret, M_ret, ret. rewrite !extend_extend.
  cbn [logger_level extend]. rewrite <- !app_assoc. reflexivity.
Qed.

End PairRun.

Lemma py_index_raise {A : Type} (xs : list A) (i : nat) (e : exn) :
  py_index xs i = Raise e -> e = IndexError.
Proof. unfold py_index. destruct (nth_error xs i); congruence. Qed.

(** An output that misses a field appends nothing to the last
    accumulator. *)
Lemma parse_fails_hierarchicalsubject (output : string) :
  parse_fails output <->
  hierarchicalsubject (append_values output no_fields) = [].
Proof.
  unfold parse_fails, append_values, keywords_value, line_value.
  destruct (result_bind (py_index (str_split_max CRLF 1 output) 0) _)
    as [k|e0] eqn:E0.
  - destruct (result_bind (py_index (str_split CRLF output) 1) _)
      as [s|e1] eqn:E1.
    + destruct (result_bind (py_index (str_split CRLF output) 2) _)
        as [h|e2] eqn:E2; cbn.
      * split; [intros [H|[H|H]]; discriminate | discriminate].
      * split; [reflexivity | intros _]. right. right. f_equal.
        unfold result_bind in E2.
        destruct (py_index (str_split CRLF output) 2) as [l|e] eqn:El.
        -- apply py_index_raise in E2. exact E2.
        -- apply py_index_raise in El. congruence.
    + cbn. split; [reflexivity | intros _]. right. left. f_equal.
      unfold result_bind in E1.
      destruct (py_index (str_split CRLF output) 1) as [l|e] eqn:El.
      * apply py_index_raise in E1. exact E1.
      * apply py_index_raise in El. congruence.
  - cbn. split; [reflexivity | intros _]. left. f_equal.
    unfold result_bind in E0.
    destruct (py_index (str_split_max CRLF 1 output) 0) as [l|e] eqn:El.
    + apply py_index_raise in E0. exact E0.
    + apply py_index_raise in El. congruence.
Qed.

Lemma keywords_value_raise (output : string) (e : exn) :
  keywords_value output = Raise e -> e = IndexError.
Proof.
  unfold keywords_value, result_bind.
  destruct (py_index (str_split_max CRLF 1 output) 0) as [line|e0] eqn:E0.
  - apply py_index_raise.
  - intros [= <-]. exact (py_index_raise _ _ _ E0).
Qed.

(** The accumulators stay empty exactly when the first subscription fails
    for both outputs. *)
Lemma append_values_nothing (output1 output2 : string) :
  append_values output2 (append_values output1 no_fields) = no_fields
  <-> keywords_value output1 = Raise IndexError /\
      keywords_value output2 = Raise IndexError.
Proof.
  rewrite (append_values_acc output2). unfold append_values.
  destruct (keywords_value output1) as [k1|e1] eqn:E1;
    destruct (keywords_value output2) as [k2|e2] eqn:E2.
  - split; [|intros [? _]; discriminate].
    destruct (line_value 1 output1), (line_value 1 output2);
      try destruct (line_value 2 output1); try destruct (line_value 2 output2);
      discriminate.
  - split; [|intros [? _]; discriminate].
    destruct (line_value 1 output1); try destruct (line_value 2 output1);
      discriminate.
  - split; [|intros [_ ?]; discriminate].
    destruct (line_value 1 output2); try destruct (line_value 2 output2);
      discriminate.
  - apply keywords_value_raise in E1 as ->.
    apply keywords_value_raise in E2 as ->. split; [auto | reflexivity].
Qed.

(** ** A run with a tool that never fails *)



(** C3, as the program behaves: a pair with an image whose fields do not
    parse is not skipped.  The image that fails contributes the fields
    appended before the failing line and nothing to HierarchicalSubject, the
    other image is read as usual, [merge_metadata] returns, both images of
    the pair are written with the merged lists, the failure itself leaves
    no log record, and the comparison goes on. *)
Theorem parse_failure_pair_written (w : World) (st : state)
    (image1 image2 : string) (hash1 hash2 : ImageHash)
    (output1 output2 out1 out2 : string) :
  str_lt image1 image2 = true ->
  compare_image_hashes hash1 hash2 default_max_difference = Ok true ->
  parse_fails output1 \/ parse_fails output2 ->
  let history := commands (trace st) in
  let acc := append_values output2 (append_values output1 no_fields) in
  let kws := merged_list (keywords acc) in
  let subjects := merged_list (subject acc) in
  let hs := merged_list (hierarchicalsubject acc) in
  run_process w history (read_command image1) = Ok output1 ->
  run_process w (history ++ [read_command image1]) (read_command image2)
  = Ok output2 ->
  run_process w (history ++ [read_command image1; read_command image2])
    (write_parameters image1 kws subjects hs) = Ok out1 ->
  run_process w
    (history ++ [read_command image1; read_command image2;
                 write_parameters image1 kws subjects hs])
    (write_parameters image2 kws subjects hs) = Ok out2 ->
  compare_pair w (image1, hash1) (image2, hash2) st
  = (Ok tt,
     extend st
       (debug_events (logger_level st) (similar_message image1 image2)
        ++ [Exec (read_command image1); Exec (read_command image2)]
        ++ debug_events (logger_level st) (combined_message image1 image2 kws)
        ++ [Log INFO (adding_message image1 kws);
            Exec (write_parameters image1 kws subjects hs);
            Log INFO (adding_message image2 kws);
            Exec (write_parameters image2 kws subjects hs)])) /\
  (hierarchicalsubject acc
   = hierarchicalsubject (append_values output1 no_fields) \/
   hierarchicalsubject acc
   = hierarchicalsubject (append_values output2 no_fields)).
Proof.
  intros Hlt Hsim Hfail history acc kws subjects hs Hr1 Hr2 Hw1 Hw2. split.
  - unfold compare_pair. cbn [fst]. rewrite Hlt.
    apply (merge_if_similar_run w image1 image2 hash1 hash2 output1 output2
             out1 out2 st Hsim Hr1 Hr2 Hw1 Hw2).
  - subst acc. rewrite (append_values_acc output2).
    cbn [fields_app hierarchicalsubject].
    destruct Hfail as [H|H]; apply parse_fails_hierarchicalsubject in H;
      rewrite H.
    + right. reflexivity.
    + left. apply app_nil_r.
Qed.

Lemma parse_failure_pair_written_witness :
  compare_pair Photos.one_untagged ("photos/a.jpg", Photos.hash_a)
    ("photos/b.jpg", Photos.hash_b) initial_state
  = (Ok tt,
     extend initial_state
       [Exec (read_command "photos/a.jpg");
        Exec (read_command "photos/b.jpg");
        Log INFO (adding_message "photos/a.jpg" ["cat"]);
        Exec (write_parameters "photos/a.jpg" ["cat"] ["cat"] ["animal|cat"]);
        Log INFO (adding_message "photos/b.jpg" ["cat"]);
        Exec (write_parameters "photos/b.jpg" ["cat"] ["cat"] ["animal|cat"])])
  /\ (hierarchicalsubject
        (append_values Photos.output_c (append_values "" no_fields))
      = hierarchicalsubject (append_values "" no_fields) \/
      hierarchicalsubject
        (append_values Photos.output_c (append_values "" no_fields))
      = hierarchicalsubject (append_values Photos.output_c no_fields)).
Proof.
  apply (parse_failure_pair_written Photos.one_untagged initial_state
           "photos/a.jpg" "photos/b.jpg" Photos.hash_a Photos.hash_b
           "" Photos.output_c Photos.updated Photos.updated).
  - reflexivity.
  - reflexivity.
  - left. left. reflexivity.
  - reflexivity.
  - reflexivity.
  - reflexivity.
  - reflexivity.
Defined.

(** C3, as stated, fails: the first image of this pair reports no field at
    all, the subscription raises [IndexError], and still both images of the
    pair are written, with the fields of the second image. *)
Lemma parse_failure_pair_not_skipped :
  keywords_value "" = Raise IndexError /\
  compare_pair Photos.one_untagged ("photos/a.jpg", Photos.hash_a)
    ("photos/b.jpg", Photos.hash_b) initial_state
  = (Ok tt,
     {| trace :=
          [Exec (read_command "photos/a.jpg");
           Exec (read_command "photos/b.jpg");
           Log INFO (adding_message "photos/a.jpg" ["cat"]);
           Exec ["exiftool"; "-overwrite_original"; "-L"; "-charset";
                 "filename=cp1252"; "-Keywords+=cat"; "-Subject+=cat";
                 "-HierarchicalSubject+=animal|cat"; "photos/a.jpg"];
           Log INFO (adding_message "photos/b.jpg" ["cat"]);
           Exec ["exiftool"; "-overwrite_original"; "-L"; "-charset";
                 "filename=cp1252"; "-Keywords+=cat"; "-Subject+=cat";
                 "-HierarchicalSubject+=animal|cat"; "photos/b.jpg"]];
        logger_level := INFO |}).
Proof. split; vm_compute; reflexivity. Qed.

(** ** Reading a field line *)

Lemma append_empty_r (s : string) : s +:+ "" = s.
Proof.
  induction s as [|c s IH]; [reflexivity|].
  change (String c s +:+ "") with (String c (s +:+ "")). rewrite IH.
  reflexivity.
Qed.


Lemma py_index_first_segment (value : string) :
  py_index (str_split COLON value) 0 = Ok (first_segment value).
Proof.
  unfold first_segment, str_split.
  pose proof (split_from_not_nil ":" " " 0 None value) as Hne.
  destruct (split_from _ 0 None value); [congruence | reflexivity].
Qed.

(** The second piece of a field line is the value up to its first
    [": "]. *)
Lemma field_line_value (name value : string) :
  str_contains COLON name = false ->
  py_index (str_split COLON (name +:+ COLON +:+ value)) 1
  = Ok (first_segment value).
Proof.
  intros Hname. unfold str_split, COLON.
  rewrite (split_from_first _ _ colon_chars) by exact Hname.
  cbn [may_split after_split]. apply py_index_first_segment.
Qed.



Example keywords_value_truncated :
  keywords_value
    (Photos.report "note: see back, cat" "cat" "animal|cat")
  = Ok "note".
Proof. reflexivity. Qed.

(** ** An output without the Subject line *)

Lemma str_split_max_first_line (line rest : string) :
  str_contains CRLF line = false ->
  py_index (str_split_max CRLF 1 (line +:+ CRLF +:+ rest)) 0 = Ok line.
Proof.
  intros Hline. unfold str_split_max, CRLF.
  rewrite (split_from_first _ _ crlf_chars) by exact Hline. reflexivity.
Qed.

Lemma str_split_line (line rest : string) :
  str_contains CRLF line = false ->
  str_split CRLF (line +:+ CRLF +:+ rest) = line :: str_split CRLF rest.
Proof.
  intros Hline. unfold str_split, CRLF.
  rewrite (split_from_first _ _ crlf_chars) by exact Hline. reflexivity.
Qed.

Lemma str_split_last_line (line : string) :
  str_contains CRLF line = false -> str_split CRLF line = [line].
Proof. intros Hline. apply split_from_free, Hline. Qed.




(** ** The pieces of a split *)

Lemma length_append (a b : string) :
  String.length (a +:+ b) = (String.length a + String.length b)%nat.
Proof.
  induction a as [|c a IH]; [reflexivity|].
  change (String c a +:+ b) with (String c (a +:+ b)). cbn [String.length].
  rewrite IH. reflexivity.
Qed.

(** No piece of a split on [", "] holds a [", "]. *)
Lemma str_split_comma_pieces (s p : string) :
  p ∈ str_split COMMA s -> str_contains COMMA p = false.
Proof.
  remember (String.length s) as n eqn:Hn. revert s Hn p.
  induction n as [n IH] using lt_wf_ind. intros s Hn p Hp.
  destruct (str_split_first_piece "," " " comma_chars s)
    as (p0 & ps & Hsplit & Hp0 & Hrest).
  fold COMMA in Hsplit, Hp0, Hrest. rewrite Hsplit in Hp.
  apply elem_of_cons in Hp as [->|Hp]; [exact Hp0|].
  destruct (str_contains COMMA s).
  - destruct Hrest as (rest & -> & ->).
    apply (IH (String.length rest)) with (s := rest); [|reflexivity|exact Hp].
    subst n. rewrite !length_append. cbn. lia.
  - destruct Hrest as [_ ->]. inversion Hp.
Qed.

(** Joining values that hold no [", "] and splitting again gives the values
    back. *)
Lemma str_split_join_values (values : list string) :
  values <> [] ->
  (forall v, v ∈ values -> str_contains COMMA v = false) ->
  str_split COMMA (str_join COMMA values) = values.
Proof.
  intros Hne Hfree. rewrite str_split_join_comma by exact Hne.
  clear Hne. induction values as [|v values IH]; [reflexivity|].
  cbn [flat_map]. unfold str_split at 1, COMMA.
  rewrite split_from_free by (apply Hfree, list_elem_of_here).
  cbn [app]. f_equal. apply IH. intros x Hx.
  apply Hfree, list_elem_of_further, Hx.
Qed.

Lemma merged_list_not_nil (values : list string) : merged_list values <> [].
Proof.
  unfold merged_list, str_split. intros H.
  destruct (split_from COMMA 0 None (str_join COMMA values)) as [|p ps] eqn:E.
  - exact (split_from_not_nil "," " " 0 None _ E).
  - assert (p ∈ list_set (p :: ps)) as Hin
      by apply elem_of_list_set, list_elem_of_here.
    rewrite H in Hin. inversion Hin.
Qed.

(** The text that joins a merged list holds exactly the values of the
    list: an image that reports it carries the list. *)
Lemma merged_list_join_split (values : list string) :
  str_split COMMA (str_join COMMA (merged_list values)) = merged_list values.
Proof.
  apply str_split_join_values; [apply merged_list_not_nil|].
  intros v Hv. unfold merged_list in Hv.
  apply (proj1 (elem_of_list_set _ _)) in Hv.
  exact (str_split_comma_pieces _ _ Hv).
Qed.

(** An image whose three fields report the joined merged lists carries
    them. *)
Lemma carries_joined (output : string) (k s h : list string) :
  keywords_value output = Ok (str_join COMMA (merged_list k)) ->
  line_value 1 output = Ok (str_join COMMA (merged_list s)) ->
  line_value 2 output = Ok (str_join COMMA (merged_list h)) ->
  carries output (merged_list k) (merged_list s) (merged_list h).
Proof.
  intros Hk Hs Hh. eexists _, _, _.
  split; [exact Hk|]. split; [exact Hs|]. split; [exact Hh|].
  rewrite !merged_list_join_split. tauto.
Qed.

(** ** Merging twice *)

Lemma merge_metadata_ok_inv (w : World) (image1 image2 : string)
    (st st' : state) (kws subjects hs : list string) :
  merge_metadata w image1 image2 st = (Ok (kws, subjects, hs), st') ->
  exists acc : fields,
    kws = merged_list (keywords acc) /\
    subjects = merged_list (subject acc) /\
    hs = merged_list (hierarchicalsubject acc).
Proof.
  unfold merge_metadata. intros H. unfold mbind at 1, M_bind, bind in H.
  destruct (read_files w [image1; image2] no_fields st) as [[acc|e] st1];
    [|discriminate].
  erewrite bind_ok in H by apply logger_debug_run.
  unfold mret, M_ret, ret in H. injection H as <- <- <- _. eauto.
Qed.

Lemma carries_append_values (output : string) (kws subjects hs : list string) :
  carries output kws subjects hs ->
  exists rk rs rh : string,
    append_values output no_fields
    = {| keywords := [rk]; subject := [rs]; hierarchicalsubject := [rh] |} /\
    (forall v, v ∈ str_split COMMA rk <-> v ∈ kws) /\
    (forall v, v ∈ str_split COMMA rs <-> v ∈ subjects) /\
    (forall v, v ∈ str_split COMMA rh <-> v ∈ hs).
Proof.
  intros (rk & rs & rh & Hk & Hs & Hh & H). exists rk, rs, rh.
  split; [|exact H]. unfold append_values. rewrite Hk, Hs, Hh. reflexivity.
Qed.

Lemma merged_list_twice (r1 r2 : string) (merged : list string) :
  NoDup merged ->
  (forall v, v ∈ str_split COMMA r1 <-> v ∈ merged) ->
  (forall v, v ∈ str_split COMMA r2 <-> v ∈ merged) ->
  merged_list [r1; r2] ≡ₚ merged.
Proof.
  intros Hnd H1 H2. apply NoDup_Permutation; [apply NoDup_merged_list|exact Hnd|].
  intros v. rewrite elem_of_merged_list by discriminate.
  cbn [flat_map]. rewrite app_nil_r, elem_of_app, H1, H2. tauto.
Qed.

(** C5: when both images of a pair carry the merged lists of a first
    merge, a second merge of the pair returns the same three sets of
    values, nothing new. *)
Theorem merge_metadata_idempotent (w : World) (image1 image2 : string)
    (st1 st1' st2 : state) (kws subjects hs : list string)
    (output1 output2 : string) :
  merge_metadata w image1 image2 st1 = (Ok (kws, subjects, hs), st1') ->
  run_process w (commands (trace st2)) (read_command image1) = Ok output1 ->
  run_process w (commands (trace st2) ++ [read_command image1])
    (read_command image2) = Ok output2 ->
  carries output1 kws subjects hs ->
  carries output2 kws subjects hs ->
  exists (kws' subjects' hs' : list string) (st2' : state),
    merge_metadata w image1 image2 st2 = (Ok (kws', subjects', hs'), st2') /\
    kws' ≡ₚ kws /\ subjects' ≡ₚ subjects /\ hs' ≡ₚ hs.
Proof.
  intros Hfirst Hr1 Hr2 Hc1 Hc2.
  apply merge_metadata_ok_inv in Hfirst as (acc & -> & -> & ->).
  apply carries_append_values in Hc1 as (k1 & s1 & h1 & E1 & Hk1 & Hs1 & Hh1).
  apply carries_append_values in Hc2 as (k2 & s2 & h2 & E2 & Hk2 & Hs2 & Hh2).
  eexists _, _, _, _.
  split; [apply (merge_metadata_run w _ _ _ _ _ Hr1 Hr2)|].
  rewrite (append_values_acc output2), E1, E2.
  cbn [fields_app keywords subject hierarchicalsubject app].
  repeat split; apply merged_list_twice; auto using NoDup_merged_list.
Qed.

Lemma same_members (l1 l2 : list string) :
  bool_decide (l1 ⊆ l2) = true -> bool_decide (l2 ⊆ l1) = true ->
  forall v, v ∈ l1 <-> v ∈ l2.
Proof.
  intros H1%bool_decide_eq_true H2%bool_decide_eq_true v.
  split; [apply H1 | apply H2].
Qed.

Lemma merge_metadata_idempotent_witness :
  let st2 :=
    snd (compare_pair Photos.writing_tool ("photos/a.jpg", Photos.hash_a)
           ("photos/b.jpg", Photos.hash_b) initial_state) in
  exists (kws' subjects' hs' : list string) (st2' : state),
    merge_metadata Photos.writing_tool "photos/a.jpg" "photos/b.jpg" st2
    = (Ok (kws', subjects', hs'), st2') /\
    kws' ≡ₚ Photos.merged_kws /\
    subjects' ≡ₚ Photos.merged_subjects /\
    hs' ≡ₚ Photos.merged_hs.
Proof.
  intros st2.
  apply (merge_metadata_idempotent Photos.writing_tool
           "photos/a.jpg" "photos/b.jpg" initial_state
           (snd (merge_metadata Photos.writing_tool "photos/a.jpg"
                   "photos/b.jpg" initial_state))
           st2 Photos.merged_kws Photos.merged_subjects Photos.merged_hs
           Photos.output_a_written Photos.output_b_written).
  - vm_compute. reflexivity.
  - vm_compute. reflexivity.
  - vm_compute. reflexivity.
  - eexists _, _, _.
    split; [vm_compute; reflexivity|].
    split; [vm_compute; reflexivity|].
    split; [vm_compute; reflexivity|].
    repeat split; apply same_members; vm_compute; reflexivity.
  - eexists _, _, _.
    split; [vm_compute; reflexivity|].
    split; [vm_compute; reflexivity|].
    split; [vm_compute; reflexivity|].
    repeat split; apply same_members; vm_compute; reflexivity.
Defined.

(** ** The pairs the loops consider *)

Lemma for_each_ext {A : Type} (xs : list A) (body1 body2 : A -> M unit)
    (st : state) :
  (forall x st0, body1 x st0 = body2 x st0) ->
  for_each xs body1 st = for_each xs body2 st.
Proof.
  intros Hb. revert st. induction xs as [|x xs IH]; intros st; [reflexivity|].
  cbn [for_each]. unfold mbind, M_bind, bind. rewrite Hb.
  destruct (body2 x st) as [[[]|e] st1]; [apply IH | reflexivity].
Qed.

Lemma for_each_app {A : Type} (xs ys : list A) (body : A -> M unit)
    (st : state) :
  for_each (xs ++ ys) body st
  = (for_each xs body ≫= fun _ => for_each ys body) st.
Proof.
  revert st. induction xs as [|x xs IH]; intros st; [reflexivity|].
  cbn [app for_each]. unfold mbind, M_bind, bind.
  destruct (body x st) as [[[]|e] st1]; [|reflexivity].
  rewrite IH. reflexivity.
Qed.

Lemma for_each_map {A B : Type} (f : A -> B) (xs : list A)
    (body : B -> M unit) (st : state) :
  for_each (map f xs) body st = for_each xs (fun x => body (f x)) st.
Proof.
  revert st. induction xs as [|x xs IH]; intros st; [reflexivity|].
  cbn [map for_each]. unfold mbind, M_bind, bind.
  destruct (body (f x) st) as [[[]|e] st1]; [apply IH | reflexivity].
Qed.

(** Two nested loops are one loop over the product. *)
Lemma for_each_prod {A B : Type} (xs : list A) (ys : list B)
    (body : A * B -> M unit) (st : state) :
  for_each xs (fun x => for_each ys (fun y => body (x, y))) st
  = for_each (list_prod xs ys) body st.
Proof.
  revert st. induction xs as [|x xs IH]; intros st; [reflexivity|].
  cbn [list_prod for_each]. rewrite for_each_app.
  unfold mbind, M_bind, bind. rewrite for_each_map.
  destruct (for_each ys _ st) as [[[]|e] st1]; [apply IH | reflexivity].
Qed.

(** A guarded body runs on the elements that pass the guard. *)
Lemma for_each_filter {A : Type} (guard : A -> bool) (xs : list A)
    (body : A -> M unit) (st : state) :
  for_each xs (fun x => if guard x then body x else mret tt) st
  = for_each (List.filter guard xs) body st.
Proof.
  revert st. induction xs as [|x xs IH]; intros st; [reflexivity|].
  cbn [List.filter for_each]. unfold mbind, M_bind, bind.
  destruct (guard x).
  - cbn [for_each]. unfold mbind, M_bind, bind.
    destruct (body x st) as [[[]|e] st1]; [apply IH | reflexivity].
  - cbn. apply IH.
Qed.

Lemma compare_items_considered (w : World)
    (image_dict : list (string * ImageHash)) (st : state) :
  compare_items w image_dict st
  = for_each (considered_pairs image_dict)
      (fun p => merge_if_similar w (fst p) (snd p)) st.
Proof.
  unfold compare_items, considered_pairs.
  rewrite <- for_each_filter.
  rewrite <- (for_each_prod image_dict image_dict
                (fun p => if str_lt (fst (fst p)) (fst (snd p))
                          then merge_if_similar w (fst p) (snd p)
                          else mret tt)).
  reflexivity.
Qed.

Lemma NoDup_list_prod {A B : Type} (xs : list A) (ys : list B) :
  NoDup xs -> NoDup ys -> NoDup (list_prod xs ys).
Proof.
  intros Hxs Hys. induction Hxs as [|x xs Hx Hxs IH]; cbn [list_prod].
  - constructor.
  - apply NoDup_app. split; [|split; [|exact IH]].
    + clear -Hys. induction Hys as [|y ys Hy Hys IH]; cbn [map]; constructor.
      * rewrite list_elem_of_In, in_map_iff. intros (y' & [= <-] & Hin).
        apply Hy, list_elem_of_In, Hin.
      * exact IH.
    + intros [a b] Hab Hprod.
      apply list_elem_of_In, in_map_iff in Hab as (y' & [= <- <-] & _).
      apply list_elem_of_In, in_prod_iff in Hprod as [Hin _].
      apply Hx, list_elem_of_In, Hin.
Qed.

(** In a dict a path has one item. *)
Lemma dict_item_unique {V : Type} (d : list (string * V)) (k : string)
    (v1 v2 : V) :
  NoDup (map fst d) -> (k, v1) ∈ d -> (k, v2) ∈ d -> v1 = v2.
Proof.
  induction d as [|[k' v'] d IH]; cbn [map fst]; intros Hnd H1 H2.
  - inversion H1.
  - apply NoDup_cons in Hnd as [Hk' Hnd].
    assert (forall v, (k', v) ∈ d -> False) as Hfresh.
    { intros v Hv. apply Hk'. apply list_elem_of_In, in_map_iff.
      exists (k', v). split; [reflexivity | apply list_elem_of_In, Hv]. }
    apply elem_of_cons in H1 as [E1|H1];
      apply elem_of_cons in H2 as [E2|H2].
    + congruence.
    + exfalso. injection E1 as -> _. eauto.
    + exfalso. injection E2 as -> _. eauto.
    + exact (IH Hnd H1 H2).
Qed.

Lemma elem_of_considered_pairs (image_dict : list (string * ImageHash))
    (item1 item2 : string * ImageHash) :
  (item1, item2) ∈ considered_pairs image_dict <->
  item1 ∈ image_dict /\ item2 ∈ image_dict /\
  str_lt (fst item1) (fst item2) = true.
Proof.
  unfold considered_pairs.
  rewrite list_elem_of_In, filter_In, in_prod_iff, <- !list_elem_of_In.
  cbn [fst snd]. tauto.
Qed.

Lemma elem_of_paths (image_dict : list (string * ImageHash)) (a b : string) :
  (a, b) ∈ map paths (considered_pairs image_dict) <->
  a ∈ map fst image_dict /\ b ∈ map fst image_dict /\ str_lt a b = true.
Proof.
  rewrite !list_elem_of_In, !in_map_iff. split.
  - intros ([[a' h1] [b' h2]] & [= <- <-] & Hin).
    apply list_elem_of_In, elem_of_considered_pairs in Hin
      as (H1 & H2 & Hlt).
    split; [|split; [|exact Hlt]].
    + exists (a', h1). split; [reflexivity | apply list_elem_of_In, H1].
    + exists (b', h2). split; [reflexivity | apply list_elem_of_In, H2].
  - intros (([a' h1] & <- & H1) & ([b' h2] & <- & H2) & Hlt).
    exists ((a', h1), (b', h2)). split; [reflexivity|].
    apply list_elem_of_In, elem_of_considered_pairs.
    rewrite !list_elem_of_In. auto.
Qed.

Lemma NoDup_paths (image_dict : list (string * ImageHash)) :
  NoDup (map fst image_dict) ->
  NoDup (map paths (considered_pairs image_dict)).
Proof.
  intros Hnd.
  assert (NoDup image_dict) as Hd by exact (NoDup_fmap_1 fst _ Hnd).
  apply (NoDup_fmap_2_strong paths).
  - intros [[a1 h1] [b1 h2]] [[a2 h3] [b2 h4]] Hx Hy [= <- <-].
    apply elem_of_considered_pairs in Hx as (Hx1 & Hx2 & _).
    apply elem_of_considered_pairs in Hy as (Hy1 & Hy2 & _).
    rewrite (dict_item_unique _ _ _ _ Hnd Hx1 Hy1).
    rewrite (dict_item_unique _ _ _ _ Hnd Hx2 Hy2). reflexivity.
  - unfold considered_pairs.
    apply NoDup_ListNoDup, List.NoDup_filter, NoDup_ListNoDup.
    apply NoDup_list_prod; exact Hd.
Qed.

(** Assigning to a key keeps the keys of a dict distinct. *)
Lemma dict_set_keys {V : Type} (k : string) (v : V) (d : list (string * V)) :
  map fst (dict_set k v d)
  = if bool_decide (k ∈ map fst d) then map fst d else map fst d ++ [k].
Proof.
  induction d as [|[k' v'] d IH]; [reflexivity|].
  cbn [dict_set map fst]. destruct (String.eqb_spec k k') as [->|Hne].
  - rewrite bool_decide_eq_true_2 by apply list_elem_of_here. reflexivity.
  - cbn [map fst]. rewrite IH. destruct (bool_decide (k ∈ map fst d)) eqn:E.
    + apply bool_decide_eq_true in E.
      rewrite bool_decide_eq_true_2 by (apply list_elem_of_further, E).
      reflexivity.
    + apply bool_decide_eq_false in E.
      rewrite bool_decide_eq_false_2; [reflexivity|].
      intros [?|?]%elem_of_cons; contradiction.
Qed.

Lemma dict_set_NoDup {V : Type} (k : string) (v : V) (d : list (string * V)) :
  NoDup (map fst d) -> NoDup (map fst (dict_set k v d)).
Proof.
  intros Hnd. rewrite dict_set_keys.
  destruct (bool_decide (k ∈ map fst d)) eqn:E; [exact Hnd|].
  apply bool_decide_eq_false in E. apply NoDup_app.
  split; [exact Hnd|]. split; [|apply NoDup_singleton].
  intros x Hx ->%list_elem_of_singleton. contradiction.
Qed.

Lemma dict_of_items_NoDup {V : Type} (items : list (string * V)) :
  NoDup (map fst (dict_of_items items)).
Proof.
  unfold dict_of_items.
  assert (NoDup (map fst ([] : list (string * V)))) as H0 by constructor.
  revert H0. generalize ([] : list (string * V)).
  induction items as [|[k v] items IH]; intros d Hd; cbn [fold_left fst snd].
  - exact Hd.
  - apply IH, dict_set_NoDup, Hd.
Qed.

(** The dict [compare_all_images] builds has distinct paths. *)
Lemma hash_files_NoDup (w : World) (folder_path : string)
    (image_files : list string) (d0 d : list (string * ImageHash))
    (st st' : state) :
  NoDup (map fst d0) ->
  hash_files w folder_path image_files d0 st = (Ok d, st') ->
  NoDup (map fst d).
Proof.
  revert d0 st. induction image_files as [|f files IH]; intros d0 st Hd0 Hrun.
  - cbn in Hrun. injection Hrun as <- _. exact Hd0.
  - cbn [hash_files] in Hrun. unfold mbind at 1, M_bind, bind in Hrun.
    destruct (create_image_hash w _ st) as [[h|e] st1]; [|discriminate].
    apply (IH _ _ (dict_set_NoDup _ h _ Hd0) Hrun).
Qed.

(** C6: over a dict of hashes, the two loops let through the guard
    [image1 < image2] exactly the pairs of [considered_pairs] and run the
    comparison on them, in this order.  No path is paired with itself, no
    pair of paths comes twice, of a pair and its reverse only one comes, and
    of two distinct paths of the dict one of the two orders comes. *)
Theorem pairs_considered_once (w : World)
    (image_dict : list (string * ImageHash)) :
  NoDup (map fst image_dict) ->
  let pairs := map paths (considered_pairs image_dict) in
  (forall st,
     compare_items w image_dict st
     = for_each (considered_pairs image_dict)
         (fun p => merge_if_similar w (fst p) (snd p)) st) /\
  NoDup pairs /\
  (forall a b, (a, b) ∈ pairs ->
               str_lt a b = true /\ a <> b /\ (b, a) ∉ pairs) /\
  (forall a b, a ∈ map fst image_dict -> b ∈ map fst image_dict -> a <> b ->
               (a, b) ∈ pairs \/ (b, a) ∈ pairs).
Proof.
  intros Hnd pairs. subst pairs.
  split; [intros st; apply compare_items_considered|].
  split; [apply NoDup_paths, Hnd|]. split.
  - intros a b Hab. apply elem_of_paths in Hab as (_ & _ & Hlt).
    split; [exact Hlt|]. split.
    + intros ->. rewrite str_lt_irrefl in Hlt. discriminate.
    + intros Hba. apply elem_of_paths in Hba as (_ & _ & Hlt').
      rewrite (str_lt_asym _ _ Hlt) in Hlt'. discriminate.
  - intros a b Ha Hb Hne. rewrite !elem_of_paths.
    destruct (str_lt_total a b Hne); auto.
Qed.

Lemma pairs_considered_once_witness :
  let image_dict :=
    [("photos/b.jpg", Photos.hash_b); ("photos/a.jpg", Photos.hash_a)] in
  let pairs := map paths (considered_pairs image_dict) in
  (forall st,
     compare_items Photos.both_tagged image_dict st
     = for_each (considered_pairs image_dict)
         (fun p => merge_if_similar Photos.both_tagged (fst p) (snd p)) st) /\
  NoDup pairs /\
  (forall a b, (a, b) ∈ pairs ->
               str_lt a b = true /\ a <> b /\ (b, a) ∉ pairs) /\
  (forall a b, a ∈ map fst image_dict -> b ∈ map fst image_dict -> a <> b ->
               (a, b) ∈ pairs \/ (b, a) ∈ pairs).
Proof.
  intros image_dict.
  apply (pairs_considered_once Photos.both_tagged image_dict).
  cbn. apply NoDup_cons. split; [|apply NoDup_singleton].
  rewrite list_elem_of_singleton. discriminate.
Defined.

Example considered_pairs_example :
  map paths
    (considered_pairs
       [("photos/b.jpg", Photos.hash_b); ("photos/a.jpg", Photos.hash_a);
        ("photos/c.jpg", Photos.hash_b)])
  = [("photos/b.jpg", "photos/c.jpg"); ("photos/a.jpg", "photos/b.jpg");
     ("photos/a.jpg", "photos/c.jpg")].
Proof. reflexivity. Qed.

(** ** The threshold *)

(** C7: a pair that matches at a threshold matches at the next one; at
    threshold 0 exactly the identical hashes match; a distance equal to the
    threshold is a match. *)
Theorem compare_image_hashes_threshold (h1 h2 : ImageHash) (t : Z) :
  (compare_image_hashes h1 h2 t = Ok true ->
   compare_image_hashes h1 h2 (t + 1) = Ok true) /\
  (compare_image_hashes h1 h2 0 = Ok true <-> h1 = h2) /\
  (hash_sub h1 h2 = Ok t -> compare_image_hashes h1 h2 t = Ok true).
Proof.
  unfold compare_image_hashes, hash_sub.
  destruct (length h1 =? length h2)%nat eqn:Hlen; cbn [result_bind].
  - apply Nat.eqb_eq in Hlen. pose proof (hamming_nonneg h1 h2) as Hpos.
    split; [|split].
    + intros [= H]. f_equal. apply Z.leb_le. apply Z.leb_le in H. lia.
    + rewrite <- (hamming_zero h1 h2 Hlen). split.
      * intros [= H]. apply Z.leb_le in H. lia.
      * intros ->. reflexivity.
    + intros [= ->]. f_equal. apply Z.leb_le. lia.
  - apply Nat.eqb_neq in Hlen. split; [discriminate|]. split; [|discriminate].
    split; [discriminate | intros ->; contradiction].
Qed.

Lemma compare_image_hashes_threshold_witness :
  compare_image_hashes Photos.hash_a Photos.hash_b 2 = Ok true /\
  Photos.hash_a = Photos.hash_a /\
  compare_image_hashes Photos.hash_a Photos.hash_b 1 = Ok true.
Proof.
  split; [|split].
  - apply (proj1 (compare_image_hashes_threshold
                    Photos.hash_a Photos.hash_b 1)).
    reflexivity.
  - apply (proj1 (proj1 (proj2 (compare_image_hashes_threshold
                                  Photos.hash_a Photos.hash_a 0)))).
    reflexivity.
  - apply (proj2 (proj2 (compare_image_hashes_threshold
                           Photos.hash_a Photos.hash_b 1))).
    reflexivity.
Defined.

Example one_bit_apart_no_match_at_zero :
  compare_image_hashes Photos.hash_a Photos.hash_b 0 = Ok false.
Proof. reflexivity. Qed.

(** ** The command line *)

Lemma last_cons_default {A : Type} (x : A) (xs : list A) (d1 d2 : A) :
  List.last (x :: xs) d1 = List.last (x :: xs) d2.
Proof.
  revert x. induction xs as [|y ys IH]; intros x; [reflexivity|].
  change (List.last (y :: ys) d1 = List.last (y :: ys) d2). apply IH.
Qed.

Lemma read_arguments_run (args : list string) (folder : string)
    (st : state) :
  read_arguments args folder st
  = (Ok (List.last (List.filter (fun arg => negb (String.eqb arg "-v")) args)
           folder),
     after_arguments args st).
Proof.
  revert folder st. induction args as [|arg rest IH]; intros folder st.
  - destruct st. reflexivity.
  - cbn [read_arguments List.filter existsb]. unfold after_arguments.
    cbn [existsb]. destruct (String.eqb arg "-v"); cbn [negb orb].
    + unfold mbind, M_bind, bind, logger_setLevel. rewrite IH.
      unfold after_arguments. cbn [trace logger_level].
      destruct (existsb _ rest); reflexivity.
    + rewrite IH. unfold after_arguments. f_equal.
      destruct (List.filter _ rest) as [|x xs] eqn:E; [reflexivity|].
      f_equal.
      change (List.last (x :: xs) arg = List.last (x :: xs) folder).
      apply last_cons_default.
Qed.




(** * Further properties of the program *)

(** ** Reading the tool's output *)

Lemma first_piece_any_limit (maxsplit : nat) (s : string) :
  py_index (split_from CRLF 0 (Some (S maxsplit)) s) 0
  = py_index (str_split CRLF s) 0.
Proof.
  unfold str_split, CRLF. destruct (str_contains CRLF s) eqn:Hs.
  - destruct (str_contains_first _ _ s Hs) as (a & b & -> & Ha).
    rewrite !(split_from_first _ _ crlf_chars) by exact Ha. reflexivity.
  - unfold CRLF in Hs. rewrite !split_from_free by exact Hs. reflexivity.
Qed.

(** X1: the Keywords field is read like the other two: limiting the split
    to one cut does not change the first line, so the first subscription is
    the subscription of line 0. *)
Theorem keywords_value_is_line_0 (output : string) :
  keywords_value output = line_value 0 output.
Proof.
  unfold keywords_value, line_value, str_split_max.
  rewrite first_piece_any_limit. reflexivity.
Qed.

(** X2: of an output of three field lines all three values are read, each
    up to its first [": "], whether or not the last line is closed by a line
    break, and whatever follows the third line is ignored. *)
Theorem complete_report_parsed
    (name1 value1 name2 value2 name3 value3 ending more : string)
    (acc : fields) :
  let line1 := name1 +:+ COLON +:+ value1 in
  let line2 := name2 +:+ COLON +:+ value2 in
  let line3 := name3 +:+ COLON +:+ value3 in
  str_contains COLON name1 = false ->
  str_contains COLON name2 = false ->
  str_contains COLON name3 = false ->
  str_contains CRLF line1 = false ->
  str_contains CRLF line2 = false ->
  str_contains CRLF line3 = false ->
  ending = "" \/ ending = CRLF +:+ more ->
  append_values (line1 +:+ CRLF +:+ line2 +:+ CRLF +:+ line3 +:+ ending) acc
  = {| keywords := keywords acc ++ [first_segment value1];
       subject := subject acc ++ [first_segment value2];
       hierarchicalsubject :=
         hierarchicalsubject acc ++ [first_segment value3] |}.
Proof.
  intros line1 line2 line3 Hn1 Hn2 Hn3 H1 H2 H3 Hend.
  assert (exists rest, str_split CRLF (line3 +:+ ending) = line3 :: rest)
    as [rest Hrest].
  { destruct Hend as [->| ->].
    - exists []. rewrite append_empty_r. apply str_split_last_line, H3.
    - eexists. apply str_split_line, H3. }
  unfold append_values, keywords_value, line_value.
  rewrite str_split_max_first_line by exact H1.
  rewrite (str_split_line line1) by exact H1.
  rewrite (str_split_line line2) by exact H2.
  rewrite Hrest. cbn [py_index nth_error result_bind].
  subst line1 line2 line3. rewrite !field_line_value by assumption.
  reflexivity.
Qed.

Lemma complete_report_parsed_witness :
  append_values Photos.output_a no_fields
  = {| keywords := ["cat, pet"];
       subject := ["cat, pet"];
       hierarchicalsubject := ["animal|cat"] |}.
Proof.
  apply (complete_report_parsed
           "Keywords                        " "cat, pet"
           "Subject                         " "cat, pet"
           "Hierarchical Subject            " "animal|cat"
           (CRLF +:+ "") "" no_fields);
    try reflexivity.
  right. reflexivity.
Defined.

(** X3: the lines are told apart by carriage return and line feed only.  Of
    an output without this pair, as the tool prints where lines end in a
    bare line feed, the whole text is one line: the keywords receive the
    text between its first and second [": "], if any, and the subjects and
    the hierarchical subjects receive nothing. *)
Theorem output_without_crlf (output : string) (acc : fields) :
  str_contains CRLF output = false ->
  keywords_value output = py_index (str_split COLON output) 1 /\
  subject (append_values output acc) = subject acc /\
  hierarchicalsubject (append_values output acc) = hierarchicalsubject acc.
Proof.
  intros Hfree.
  assert (str_split CRLF output = [output]) as Hone
    by apply str_split_last_line, Hfree.
  assert (keywords_value output = py_index (str_split COLON output) 1) as Hk.
  { unfold keywords_value, str_split_max, CRLF. unfold CRLF in Hfree.
    rewrite split_from_free by exact Hfree. reflexivity. }
  split; [exact Hk|].
  unfold append_values, line_value. rewrite Hone.
  cbn [py_index nth_error result_bind].
  destruct (keywords_value output); split; reflexivity.
Qed.

Lemma output_without_crlf_witness :
  let lf := String "010"%char "" in
  let output :=
    "Keywords                        : cat" +:+ lf
    +:+ "Subject                         : pet" +:+ lf in
  keywords_value output = py_index (str_split COLON output) 1 /\
  subject (append_values output no_fields) = [] /\
  hierarchicalsubject (append_values output no_fields) = [].
Proof.
  intros lf output. apply (output_without_crlf output no_fields). reflexivity.
Defined.

(** ** The merged lists *)

(** X4: the merged values do not depend on which image of the pair is read
    first: reading the two outputs in either order gives, for each field,
    the same values. *)
Theorem merged_lists_order_free (output1 output2 : string) :
  let acc12 := append_values output2 (append_values output1 no_fields) in
  let acc21 := append_values output1 (append_values output2 no_fields) in
  merged_list (keywords acc12) ≡ₚ merged_list (keywords acc21) /\
  merged_list (subject acc12) ≡ₚ merged_list (subject acc21) /\
  merged_list (hierarchicalsubject acc12)
  ≡ₚ merged_list (hierarchicalsubject acc21).
Proof.
  intros acc12 acc21. subst acc12 acc21.
  rewrite (append_values_acc output2 (append_values output1 no_fields)).
  rewrite (append_values_acc output1 (append_values output2 no_fields)).
  assert (forall xs ys : list string,
            merged_list (xs ++ ys) ≡ₚ merged_list (ys ++ xs)) as Hcomm.
  { intros xs ys. destruct (decide (xs ++ ys = [])) as [Hnil|Hne].
    - apply app_eq_nil in Hnil as [-> ->]. reflexivity.
    - assert (ys ++ xs <> []) as Hne'.
      { intros [-> ->]%app_eq_nil. apply Hne. reflexivity. }
      apply NoDup_Permutation; try apply NoDup_merged_list.
      intros v. rewrite !elem_of_merged_list by assumption.
      rewrite !flat_map_app, !elem_of_app. tauto. }
  cbn [fields_app keywords subject hierarchicalsubject].
  repeat split; apply Hcomm.
Qed.

(** X5: no merged value holds a [", "], and joining a merged list on [", "]
    and splitting the text again gives the list back: the text the program
    logs for a list holds the list. *)
Theorem merged_values_atomic (values : list string) :
  (forall v, v ∈ merged_list values -> str_contains COMMA v = false) /\
  str_split COMMA (str_join COMMA (merged_list values)) = merged_list values.
Proof.
  split; [|apply merged_list_join_split].
  intros v Hv. unfold merged_list in Hv.
  apply (proj1 (elem_of_list_set _ _)) in Hv.
  exact (str_split_comma_pieces _ _ Hv).
Qed.

(** X6: [merge_metadata] never returns an empty list, so that
    [apply_metadata] always passes at least one additive directive for each
    of the three fields. *)
Theorem merge_metadata_lists_not_empty (w : World) (image1 image2 : string)
    (st st' : state) (kws subjects hs : list string) :
  merge_metadata w image1 image2 st = (Ok (kws, subjects, hs), st') ->
  kws <> [] /\ subjects <> [] /\ hs <> [] /\
  forall image,
    (9 <= length (write_parameters image kws subjects hs))%nat.
Proof.
  intros H. apply merge_metadata_ok_inv in H as (acc & -> & -> & ->).
  pose proof (merged_list_not_nil (keywords acc)) as Hk.
  pose proof (merged_list_not_nil (subject acc)) as Hs.
  pose proof (merged_list_not_nil (hierarchicalsubject acc)) as Hh.
  repeat split; try assumption.
  intros image. unfold write_parameters.
  rewrite !length_app, !length_map. cbn [length write_prefix].
  destruct (merged_list (keywords acc)); [congruence|].
  destruct (merged_list (subject acc)); [congruence|].
  destruct (merged_list (hierarchicalsubject acc)); [congruence|].
  cbn [length]. lia.
Qed.

Lemma merge_metadata_lists_not_empty_witness :
  [""] <> [] /\ [""] <> [] /\ [""] <> [] /\
  forall image, (9 <= length (write_parameters image [""] [""] [""]))%nat.
Proof.
  apply (merge_metadata_lists_not_empty Photos.both_untagged
           "photos/a.jpg" "photos/b.jpg" initial_state
           (extend initial_state [Exec (read_command "photos/a.jpg");
                                  Exec (read_command "photos/b.jpg")])).
  vm_compute. reflexivity.
Defined.

(** ** When the tool fails *)

Lemma apply_metadata_raise (w : World) (image : string)
    (kws subjects hs : list string) (st : state) (e : exn) :
  run_process w (commands (trace st))
    (write_parameters image kws subjects hs) = Raise e ->
  apply_metadata w image kws subjects hs st
  = (Raise e, extend st (write_events image kws subjects hs)).
Proof.
  intros H. unfold apply_metadata. erewrite bind_ok by apply logger_info_run.
  erewrite bind_raise; cycle 1.
  { rewrite subprocess_run. cbn [extend trace]. rewrite commands_app.
    cbn [commands flat_map app]. rewrite app_nil_r, H. reflexivity. }
  rewrite extend_extend. reflexivity.
Qed.

(** X7: a read that fails ends the processing of a similar pair with the
    exception of the tool: after a failed read of the first image the second
    image is not read, and after a failed read of either image nothing is
    written. *)
Theorem read_failure_writes_nothing (w : World) (image1 image2 : string)
    (hash1 hash2 : ImageHash) (st : state) (e : exn) :
  compare_image_hashes hash1 hash2 default_max_difference = Ok true ->
  let history := commands (trace st) in
  let similar :=
    debug_events (logger_level st) (similar_message image1 image2) in
  (run_process w history (read_command image1) = Raise e ->
   merge_if_similar w (image1, hash1) (image2, hash2) st
   = (Raise e, extend st (similar ++ [Exec (read_command image1)]))) /\
  (forall output1,
     run_process w history (read_command image1) = Ok output1 ->
     run_process w (history ++ [read_command image1]) (read_command image2)
     = Raise e ->
     merge_if_similar w (image1, hash1) (image2, hash2) st
     = (Raise e,
        extend st (similar ++ [Exec (read_command image1);
                               Exec (read_command image2)]))).
Proof.
  intros Hsim history similar. subst history similar. split.
  - intros Hr1. unfold merge_if_similar.
    erewrite bind_ok by (unfold lift; rewrite Hsim; reflexivity).
    cbv beta iota. erewrite bind_ok by apply logger_debug_run.
    fold (similar_message image1 image2).
    erewrite bind_raise; [reflexivity|].
    unfold merge_metadata, read_files. erewrite bind_raise; [reflexivity|].
    erewrite bind_raise; cycle 1.
    { rewrite subprocess_run. cbn [extend trace].
      rewrite commands_app, debug_events_commands, app_nil_r.
      fold (read_command image1). rewrite Hr1. reflexivity. }
    rewrite extend_extend. reflexivity.
  - intros output1 Hr1 Hr2. unfold merge_if_similar.
    erewrite bind_ok by (unfold lift; rewrite Hsim; reflexivity).
    cbv beta iota. erewrite bind_ok by apply logger_debug_run.
    fold (similar_message image1 image2).
    erewrite bind_raise; [reflexivity|].
    unfold merge_metadata, read_files. erewrite bind_raise; [reflexivity|].
    erewrite bind_ok; cycle 1.
    { rewrite subprocess_run. cbn [extend trace].
      rewrite commands_app, debug_events_commands, app_nil_r.
      fold (read_command image1). rewrite Hr1. reflexivity. }
    erewrite bind_raise; cycle 1.
    { rewrite subprocess_run. cbn [extend trace].
      rewrite !commands_app, debug_events_commands, app_nil_r.
      cbn [commands flat_map app].
      fold (read_command image1) (read_command image2).
      rewrite Hr2. reflexivity. }
    rewrite !extend_extend. rewrite <- ?app_assoc. reflexivity.
Qed.

Lemma read_failure_writes_nothing_witness :
  merge_if_similar Faults.no_read ("photos/a.jpg", Photos.hash_a)
    ("photos/b.jpg", Photos.hash_b) initial_state
  = (Raise CalledProcessError,
     extend initial_state [Exec (read_command "photos/a.jpg")]) /\
  merge_if_similar Faults.one_read ("photos/a.jpg", Photos.hash_a)
    ("photos/b.jpg", Photos.hash_b) initial_state
  = (Raise CalledProcessError,
     extend initial_state [Exec (read_command "photos/a.jpg");
                           Exec (read_command "photos/b.jpg")]).
Proof.
  split.
  - apply (proj1 (read_failure_writes_nothing Faults.no_read
                    "photos/a.jpg" "photos/b.jpg" Photos.hash_a Photos.hash_b
                    initial_state CalledProcessError eq_refl)).
    reflexivity.
  - apply (proj2 (read_failure_writes_nothing Faults.one_read
                    "photos/a.jpg" "photos/b.jpg" Photos.hash_a Photos.hash_b
                    initial_state CalledProcessError eq_refl)
             Photos.output_a); reflexivity.
Defined.

(** X8: a write that fails ends the processing of a similar pair with the
    exception of the tool.  When the write of the first image fails, the
    second image is not written although both were read and merged. *)
Theorem write_failure_leaves_second_unwritten (w : World)
    (image1 image2 : string) (hash1 hash2 : ImageHash)
    (output1 output2 : string) (st : state) (e : exn) :
  compare_image_hashes hash1 hash2 default_max_difference = Ok true ->
  let history := commands (trace st) in
  let acc := append_values output2 (append_values output1 no_fields) in
  let kws := merged_list (keywords acc) in
  let subjects := merged_list (subject acc) in
  let hs := merged_list (hierarchicalsubject acc) in
  run_process w history (read_command image1) = Ok output1 ->
  run_process w (history ++ [read_command image1]) (read_command image2)
  = Ok output2 ->
  run_process w (history ++ [read_command image1; read_command image2])
    (write_parameters image1 kws subjects hs) = Raise e ->
  merge_if_similar w (image1, hash1) (image2, hash2) st
  = (Raise e,
     extend st
       (debug_events (logger_level st) (similar_message image1 image2)
        ++ [Exec (read_command image1); Exec (read_command image2)]
        ++ debug_events (logger_level st) (combined_message image1 image2 kws)
        ++ [Log INFO (adding_message image1 kws);
            Exec (write_parameters image1 kws subjects hs)])).
Proof.
  intros Hsim history acc kws subjects hs Hr1 Hr2 Hw1.
  unfold merge_if_similar.
  erewrite bind_ok by (unfold lift; rewrite Hsim; reflexivity).
  cbv beta iota. erewrite bind_ok by apply logger_debug_run.
  fold (similar_message image1 image2).
  erewrite bind_ok; cycle 1.
  { apply (merge_metadata_run w image1 image2 output1 output2);
      cbn [extend trace]; rewrite commands_app, debug_events_commands,
        app_nil_r; assumption. }
  cbv beta iota. fold acc. fold kws subjects hs. cbn [for_each].
  erewrite bind_raise; cycle 1.
  { apply apply_metadata_raise. cbn [extend trace logger_level].
    rewrite !commands_app, !debug_events_commands, app_nil_r. exact Hw1. }
  rewrite !extend_extend. cbn [logger_level extend write_events].
  rewrite <- !app_assoc. reflexivity.
Qed.

Lemma write_failure_leaves_second_unwritten_witness :
  merge_if_similar Faults.no_write ("photos/a.jpg", Photos.hash_a)
    ("photos/b.jpg", Photos.hash_b) initial_state
  = (Raise CalledProcessError,
     extend initial_state
       [Exec (read_command "photos/a.jpg");
        Exec (read_command "photos/b.jpg");
        Log INFO (adding_message "photos/a.jpg" ["cat"]);
        Exec (write_parameters "photos/a.jpg" ["cat"] ["cat"]
                ["animal|cat"])]).
Proof.
  apply (write_failure_leaves_second_unwritten Faults.no_write
           "photos/a.jpg" "photos/b.jpg" Photos.hash_a Photos.hash_b
           Photos.output_c Photos.output_c initial_state CalledProcessError);
    reflexivity.
Defined.

(** X9: the loops have no handler: the first pair whose processing raises
    ends the comparison with that exception, in the state the pair left,
    and the pairs behind it are not processed. *)
Theorem compare_items_stops_at_exception (w : World)
    (image_dict : list (string * ImageHash))
    (before after : list ((string * ImageHash) * (string * ImageHash)))
    (p : (string * ImageHash) * (string * ImageHash))
    (st st1 st2 : state) (e : exn) :
  considered_pairs image_dict = before ++ p :: after ->
  for_each before (fun q => merge_if_similar w (fst q) (snd q)) st
  = (Ok tt, st1) ->
  merge_if_similar w (fst p) (snd p) st1 = (Raise e, st2) ->
  compare_items w image_dict st = (Raise e, st2).
Proof.
  intros Hpairs Hbefore Hp.
  rewrite compare_items_considered, Hpairs, for_each_app.
  erewrite bind_ok by exact Hbefore. cbn [for_each].
  erewrite bind_raise by exact Hp. reflexivity.
Qed.

Lemma compare_items_stops_at_exception_witness :
  compare_items Faults.no_read
    [("photos/b.jpg", Photos.hash_b); ("photos/a.jpg", Photos.hash_a);
     ("photos/c.jpg", Photos.hash_a)] initial_state
  = (Raise CalledProcessError,
     extend initial_state [Exec (read_command "photos/b.jpg")]).
Proof.
  apply (compare_items_stops_at_exception Faults.no_read _ []
           [(("photos/a.jpg", Photos.hash_a), ("photos/b.jpg", Photos.hash_b));
            (("photos/a.jpg", Photos.hash_a), ("photos/c.jpg", Photos.hash_a))]
           (("photos/b.jpg", Photos.hash_b), ("photos/c.jpg", Photos.hash_a))
           initial_state initial_state);
    reflexivity.
Defined.

(** ** Choosing the image files *)

Lemma append_assoc (a b c : string) : (a +:+ b) +:+ c = a +:+ b +:+ c.
Proof.
  induction a as [|x a IH]; [reflexivity|].
  change (String x ((a +:+ b) +:+ c) = String x (a +:+ b +:+ c)).
  rewrite IH. reflexivity.
Qed.

Lemma rev_app_append (a b : string) :
  String.rev_app a b = String.rev a +:+ b.
Proof.
  unfold String.rev. revert b. induction a as [|x a IH]; intros b.
  - reflexivity.
  - cbn [String.rev_app]. rewrite (IH (String x b)), (IH (String x "")).
    rewrite append_assoc. reflexivity.
Qed.

Lemma rev_cons (x : ascii) (s : string) :
  String.rev (String x s) = String.rev s +:+ String x "".
Proof. unfold String.rev at 1. cbn [String.rev_app]. apply rev_app_append. Qed.

Lemma rev_append (a b : string) :
  String.rev (a +:+ b) = String.rev b +:+ String.rev a.
Proof.
  induction a as [|x a IH].
  - change (String.rev "") with "". rewrite append_empty_r. reflexivity.
  - change (String x a +:+ b) with (String x (a +:+ b)).
    rewrite !rev_cons, IH, append_assoc. reflexivity.
Qed.

Lemma rev_involutive (s : string) : String.rev (String.rev s) = s.
Proof.
  induction s as [|x s IH]; [reflexivity|].
  rewrite rev_cons, rev_append, IH. reflexivity.
Qed.

Lemma prefix_iff (a b : string) :
  String.prefix a b = true <-> exists r, b = a +:+ r.
Proof.
  revert b. induction a as [|x a IH]; intros b.
  - destruct b; cbn; split; eauto.
  - destruct b as [|y b]; cbn [String.prefix].
    + split; [discriminate | intros [r Hr]; discriminate].
    + destruct (ascii_dec x y) as [->|Hne].
      * rewrite IH. split; intros [r Hr]; exists r.
        -- rewrite Hr. reflexivity.
        -- change (String y a +:+ r) with (String y (a +:+ r)) in Hr.
           congruence.
      * split; [discriminate|]. intros [r Hr].
        change (String x a +:+ r) with (String x (a +:+ r)) in Hr.
        congruence.
Qed.

Lemma str_endswith_iff (s suffix : string) :
  str_endswith s suffix = true <-> exists stem, s = stem +:+ suffix.
Proof.
  unfold str_endswith. rewrite prefix_iff. split.
  - intros [r Hr]. exists (String.rev r).
    rewrite <- (rev_involutive s), Hr, rev_append, rev_involutive.
    reflexivity.
  - intros [stem ->]. exists (String.rev stem). apply rev_append.
Qed.

Lemma ascii_lower_idempotent (c : ascii) :
  ascii_lower (ascii_lower c) = ascii_lower c.
Proof. destruct c as [[] [] [] [] [] [] [] []]; reflexivity. Qed.

Lemma str_lower_idempotent (s : string) : str_lower (str_lower s) = str_lower s.
Proof.
  induction s as [|c s IH]; [reflexivity|].
  cbn [str_lower]. rewrite ascii_lower_idempotent, IH. reflexivity.
Qed.

Lemma str_lower_append (a b : string) :
  str_lower (a +:+ b) = str_lower a +:+ str_lower b.
Proof.
  induction a as [|c a IH]; [reflexivity|].
  change (String c a +:+ b) with (String c (a +:+ b)). cbn [str_lower].
  rewrite IH. reflexivity.
Qed.

(** X10: a name of the folder is taken as an image exactly when, written in
    lower case, it ends in [.jpg], [.jpeg] or [.png]; the case of the
    letters of the name plays no role, and a name with one of these
    extensions in any mix of cases is taken. *)
Theorem is_image_file_by_extension (f : string) :
  (is_image_file f = true <->
   exists stem ext,
     (ext = ".jpg" \/ ext = ".jpeg" \/ ext = ".png") /\
     str_lower f = stem +:+ ext) /\
  is_image_file (str_lower f) = is_image_file f /\
  (forall stem ext,
     str_lower ext = ".jpg" \/ str_lower ext = ".jpeg" \/
     str_lower ext = ".png" ->
     is_image_file (stem +:+ ext) = true).
Proof.
  assert (forall g, is_image_file g = true <->
            exists stem ext,
              (ext = ".jpg" \/ ext = ".jpeg" \/ ext = ".png") /\
              str_lower g = stem +:+ ext) as Hiff.
  { intros g. unfold is_image_file, IMAGE_EXTENSIONS.
    rewrite existsb_exists. split.
    - intros (ext & Hin & Hend). apply str_endswith_iff in Hend as [stem Hs].
      exists stem, ext. split; [|exact Hs].
      cbn in Hin. intuition auto.
    - intros (stem & ext & Hext & Hs). exists ext. split.
      + cbn. intuition auto.
      + apply str_endswith_iff. eauto. }
  split; [apply Hiff|]. split.
  - unfold is_image_file. rewrite str_lower_idempotent. reflexivity.
  - intros stem ext Hext. apply Hiff.
    exists (str_lower stem), (str_lower ext).
    split; [exact Hext | apply str_lower_append].
Qed.

Lemma is_image_file_by_extension_witness :
  is_image_file "Holiday.JpEg" = true.
Proof.
  apply (proj2 (proj2 (is_image_file_by_extension "")) "Holiday" ".JpEg").
  right. left. reflexivity.
Defined.

Example gif_is_no_image_file : is_image_file "notes.gif" = false.
Proof. reflexivity. Qed.

Example extension_inside_name : is_image_file "scan.jpg.txt" = false.
Proof. reflexivity. Qed.

(** ** Comparing hashes in either order *)

(** X11: the comparison of two hashes does not depend on their order, which
    is why considering each pair of paths in one order loses no match; it
    raises [TypeError] exactly for hashes of different sizes. *)
Theorem compare_image_hashes_either_order (h1 h2 : ImageHash) (t : Z) :
  compare_image_hashes h1 h2 t = compare_image_hashes h2 h1 t /\
  (compare_image_hashes h1 h2 t = Raise TypeError <-> length h1 <> length h2).
Proof.
  split.
  - unfold compare_image_hashes. rewrite hash_sub_sym. reflexivity.
  - unfold compare_image_hashes, hash_sub.
    destruct (length h1 =? length h2)%nat eqn:E; cbn [result_bind].
    + apply Nat.eqb_eq in E. split; [discriminate | contradiction].
    + apply Nat.eqb_neq in E. split; [intros _; exact E | reflexivity].
Qed.

(** ** Hashing the image files *)

Lemma dict_set_elem {V : Type} (k : string) (v : V) (d : list (string * V))
    (p : string) (h : V) :
  NoDup (map fst d) ->
  (p, h) ∈ dict_set k v d <-> (p = k /\ h = v) \/ (p <> k /\ (p, h) ∈ d).
Proof.
  induction d as [|[k' v'] d IH]; cbn [map fst dict_set]; intros Hnd.
  - rewrite list_elem_of_singleton. split.
    + intros [= -> ->]. auto.
    + intros [[-> ->]|[_ H]]; [reflexivity | inversion H].
  - apply NoDup_cons in Hnd as [Hk' Hnd].
    assert (forall x, (k', x) ∈ d -> False) as Hfresh.
    { intros x Hx. apply Hk', list_elem_of_In, in_map_iff.
      exists (k', x). split; [reflexivity | apply list_elem_of_In, Hx]. }
    destruct (String.eqb_spec k k') as [->|Hne]; rewrite !elem_of_cons.
    + split.
      * intros [[= -> ->]|H]; [auto|]. right. split; [|auto].
        intros ->. eauto.
      * intros [[-> ->]|[Hp [[= -> ->]|H]]]; auto. contradiction.
    + rewrite (IH Hnd). split.
      * intros [[= -> ->]|[H|[Hp H]]]; auto.
      * intros [H|[Hp [H|H]]]; auto.
Qed.

Lemma hash_files_spec (w : World) (folder_path : string)
    (image_files : list string) (d0 d : list (string * ImageHash))
    (st st' : state) :
  NoDup (map fst d0) ->
  (forall p h, (p, h) ∈ d0 -> average_hash w p = Ok h) ->
  hash_files w folder_path image_files d0 st = (Ok d, st') ->
  st' = st /\
  forall p h,
    (p, h) ∈ d <->
    ((exists h0, (p, h0) ∈ d0) \/
     exists f, f ∈ image_files /\ p = path_join w folder_path f) /\
    average_hash w p = Ok h.
Proof.
  revert d0 st. induction image_files as [|f files IH];
    intros d0 st Hnd Hd0 Hrun.
  - cbn in Hrun. injection Hrun as <- <-. split; [reflexivity|].
    intros p h. split.
    + intros Hin. split; [left; eauto | apply Hd0, Hin].
    + intros [[[h0 Hin]|(f & Hf & _)] Hh]; [|inversion Hf].
      rewrite (Hd0 _ _ Hin) in Hh. injection Hh as <-. exact Hin.
  - cbn [hash_files] in Hrun. unfold mbind at 1, M_bind, bind in Hrun.
    unfold create_image_hash, lift in Hrun.
    destruct (average_hash w (path_join w folder_path f)) as [h1|e] eqn:Hf;
      [|discriminate].
    apply IH in Hrun as [-> Hd].
    + split; [reflexivity|]. intros p h. rewrite Hd. clear Hd.
      assert ((exists h0, (p, h0) ∈ dict_set (path_join w folder_path f) h1 d0)
              <-> p = path_join w folder_path f \/ exists h0, (p, h0) ∈ d0)
        as ->.
      { split.
        - intros [h0 Hin]. apply dict_set_elem in Hin as [[-> _]|[_ Hin]];
            eauto.
        - intros [->|[h0 Hin]].
          + exists h1. apply dict_set_elem; auto.
          + destruct (decide (p = path_join w folder_path f)) as [->|Hne].
            * exists h1. apply dict_set_elem; auto.
            * exists h0. apply dict_set_elem; auto. }
      split; intros [Hp Hh]; (split; [|exact Hh]).
      * destruct Hp as [[->|Hp]|(g & Hg & ->)]; auto.
        -- right. exists f. split; [apply list_elem_of_here | reflexivity].
        -- right. exists g. split; [apply list_elem_of_further, Hg|].
           reflexivity.
      * destruct Hp as [Hp|(g & Hg & ->)]; auto.
        apply elem_of_cons in Hg as [->|Hg]; auto. right. eauto.
    + apply dict_set_NoDup, Hnd.
    + intros p h Hin. apply dict_set_elem in Hin as [[-> ->]|[_ Hin]]; auto.
Qed.

(** X12: when every image file decodes, the dict of hashes holds exactly one
    item for each path of an image file, the hash the hasher gives for the
    path: no path comes twice, and building the dict records nothing and
    runs no command. *)
Theorem hash_files_graph (w : World) (folder_path : string)
    (image_files : list string) (d : list (string * ImageHash))
    (st st' : state) :
  hash_files w folder_path image_files [] st = (Ok d, st') ->
  st' = st /\
  NoDup (map fst d) /\
  forall p h,
    (p, h) ∈ d <->
    (exists f, f ∈ image_files /\ p = path_join w folder_path f) /\
    average_hash w p = Ok h.
Proof.
  intros Hrun. split; [|split].
  - apply (hash_files_spec w folder_path image_files [] d st st');
      [constructor | intros p h H; inversion H | exact Hrun].
  - apply (hash_files_NoDup w folder_path image_files [] d st st');
      [constructor | exact Hrun].
  - intros p h.
    destruct (hash_files_spec w folder_path image_files [] d st st')
      as [_ Hd]; [constructor | intros ? ? H; inversion H | exact Hrun |].
    rewrite Hd. split.
    + intros [[[h0 H]|H] Hh]; [inversion H | auto].
    + intros [H Hh]. auto.
Qed.

Lemma hash_files_graph_witness :
  let d := [("photos/b.jpg", Photos.hash_b); ("photos/a.jpg", Photos.hash_a)] in
  initial_state = initial_state /\
  NoDup (map fst d) /\
  forall p h,
    (p, h) ∈ d <->
    (exists f, f ∈ ["b.jpg"; "a.jpg"] /\
               p = path_join Photos.both_tagged "photos" f) /\
    average_hash Photos.both_tagged p = Ok h.
Proof.
  intros d.
  apply (hash_files_graph Photos.both_tagged "photos" ["b.jpg"; "a.jpg"] d
           initial_state initial_state).
  reflexivity.
Defined.




(** ** How often the tool is run *)

Lemma merge_metadata_raise (w : World) (image1 image2 : string)
    (st : state) (e : exn) :
  (run_process w (commands (trace st)) (read_command image1) = Raise e ->
   fst (merge_metadata w image1 image2 st) = Raise e) /\
  (forall output1,
     run_process w (commands (trace st)) (read_command image1) = Ok output1 ->
     run_process w (commands (trace st) ++ [read_command image1])
       (read_command image2) = Raise e ->
     fst (merge_metadata w image1 image2 st) = Raise e).
Proof.
  unfold read_command. split.
  - intros H1. unfold merge_metadata, read_files.
    erewrite bind_raise; [reflexivity|].
    erewrite bind_raise; [reflexivity|].
    rewrite subprocess_run, H1. reflexivity.
  - intros output1 H1 H2. unfold merge_metadata, read_files.
    erewrite bind_raise; [reflexivity|].
    erewrite bind_ok by (rewrite subprocess_run, H1; reflexivity).
    erewrite bind_raise; [reflexivity|].
    rewrite subprocess_run. cbn [extend trace]. rewrite commands_app.
    cbn [commands flat_map app]. rewrite H2. reflexivity.
Qed.

Lemma merge_metadata_ok_commands (w : World) (image1 image2 : string)
    (st st' : state) (r : list string * list string * list string) :
  merge_metadata w image1 image2 st = (Ok r, st') ->
  commands (trace st')
  = commands (trace st) ++ [read_command image1; read_command image2].
Proof.
  intros H.
  destruct (run_process w (commands (trace st)) (read_command image1))
    as [o1|e1] eqn:H1.
  - destruct (run_process w (commands (trace st) ++ [read_command image1])
                (read_command image2)) as [o2|e2] eqn:H2.
    + rewrite (merge_metadata_run w _ _ _ _ _ H1 H2) in H.
      injection H as _ <-. cbn [extend trace].
      rewrite commands_app.
      f_equal.
      change (commands (Exec ?a :: Exec ?b :: ?evs))
        with (a :: b :: commands evs).
      rewrite debug_events_commands. reflexivity.
    + pose proof (proj2 (merge_metadata_raise w image1 image2 st e2) o1 H1 H2)
        as Hr.
      rewrite H in Hr. discriminate.
  - pose proof (proj1 (merge_metadata_raise w image1 image2 st e1) H1) as Hr.
    rewrite H in Hr. discriminate.
Qed.

Lemma for_each_pairs_commands (w : World)
    (pairs : list ((string * ImageHash) * (string * ImageHash)))
    (st st' : state) :
  for_each pairs (fun p => merge_if_similar w (fst p) (snd p)) st
  = (Ok tt, st') ->
  length (commands (trace st'))
  = (length (commands (trace st))
     + 4 * length (List.filter similar_pair pairs))%nat.
Proof.
  revert st. induction pairs as [|[[image1 hash1] [image2 hash2]] pairs IH];
    intros st Hrun.
  - cbn in Hrun. injection Hrun as <-. cbn. lia.
  - cbn [for_each] in Hrun. unfold mbind, M_bind, bind in Hrun.
    cbn [fst snd] in Hrun.
    destruct (merge_if_similar w (image1, hash1) (image2, hash2) st)
      as [[[]|e] st1] eqn:Hp; [|discriminate].
    apply IH in Hrun. rewrite Hrun. clear Hrun IH.
    cbn [List.filter].
    assert (similar_pair (image1, hash1, (image2, hash2))
            = match compare_image_hashes hash1 hash2 default_max_difference
              with Ok true => true | _ => false end) as -> by reflexivity.
    destruct (compare_image_hashes hash1 hash2 default_max_difference)
      as [[|]|e] eqn:Hsim.
    + apply merge_if_similar_ok in Hp
        as (kws & subjects & hs & st0 & Hmerge & ->); [|exact Hsim].
      apply merge_metadata_ok_commands in Hmerge.
      cbn [extend trace] in Hmerge |- *.
      rewrite commands_app, Hmerge, commands_app, debug_events_commands.
      rewrite !length_app. cbn [length commands flat_map app write_events].
      lia.
    + unfold merge_if_similar in Hp.
      erewrite bind_ok in Hp by (unfold lift; rewrite Hsim; reflexivity).
      cbn in Hp. injection Hp as <-. lia.
    + unfold merge_if_similar in Hp.
      erewrite bind_raise in Hp by (unfold lift; rewrite Hsim; reflexivity).
      discriminate.
Qed.

(** X14: a comparison that ends without an exception has run the tool four
    times for each considered pair with similar hashes, to read and to write
    both images, and not once for a pair whose hashes are not similar. *)
Theorem four_commands_per_similar_pair (w : World)
    (image_dict : list (string * ImageHash)) (st st' : state) :
  compare_items w image_dict st = (Ok tt, st') ->
  length (commands (trace st'))
  = (length (commands (trace st))
     + 4 * length (List.filter similar_pair (considered_pairs image_dict)))%nat.
Proof.
  intros Hrun. rewrite compare_items_considered in Hrun.
  exact (for_each_pairs_commands w _ _ _ Hrun).
Qed.

Lemma four_commands_per_similar_pair_witness :
  let image_dict :=
    [("photos/b.jpg", Photos.hash_b); ("photos/a.jpg", Photos.hash_a);
     ("photos/c.jpg", [false; false; true; true; false; true; false; true])] in
  let st' := snd (compare_items Photos.both_tagged image_dict initial_state) in
  length (commands (trace st')) = 4%nat.
Proof.
  intros image_dict st'.
  apply (four_commands_per_similar_pair Photos.both_tagged image_dict
           initial_state st').
  vm_compute. reflexivity.
Defined.

(** ** How many pairs are considered *)

Lemma filter_prod_cons_r {A B : Type} (P : A * B -> bool) (xs : list A)
    (y : B) (ys : list B) :
  length (List.filter P (list_prod xs (y :: ys)))
  = (length (List.filter (fun x => P (x, y)) xs)
     + length (List.filter P (list_prod xs ys)))%nat.
Proof.
  induction xs as [|x xs IH]; [reflexivity|].
  cbn [list_prod map]. rewrite !List.filter_app, !length_app, IH.
  cbn [List.filter]. destruct (P (x, y)); cbn [length]; lia.
Qed.

Lemma filter_map_pair {A B : Type} (P : A * B -> bool) (x : A) (ys : list B) :
  length (List.filter P (map (pair x) ys))
  = length (List.filter (fun y => P (x, y)) ys).
Proof.
  induction ys as [|y ys IH]; [reflexivity|].
  cbn [map List.filter]. destruct (P (x, y)); cbn [length]; rewrite IH;
    reflexivity.
Qed.

Lemma one_order_each (x : string * ImageHash)
    (d : list (string * ImageHash)) :
  fst x ∉ map fst d ->
  (length (List.filter (fun y => str_lt (fst x) (fst y)) d)
   + length (List.filter (fun y => str_lt (fst y) (fst x)) d))%nat
  = length d.
Proof.
  induction d as [|y d IH]; intros Hx; [reflexivity|].
  cbn [map] in Hx. apply not_elem_of_cons in Hx as [Hne Hx].
  specialize (IH Hx). cbn [List.filter].
  destruct (str_lt (fst x) (fst y)) eqn:Hxy.
  - rewrite (str_lt_asym _ _ Hxy). cbn [length]. lia.
  - destruct (str_lt_total _ _ Hne) as [H|H]; [congruence|].
    rewrite H. cbn [length]. lia.
Qed.

(** X15: over a dict of [n] images the two loops let [n * (n - 1) / 2]
    pairs through the guard: every two distinct images are compared once. *)
Theorem number_of_considered_pairs (image_dict : list (string * ImageHash)) :
  NoDup (map fst image_dict) ->
  (2 * length (considered_pairs image_dict)
   = length image_dict * (length image_dict - 1))%nat.
Proof.
  unfold considered_pairs.
  induction image_dict as [|x d IH]; intros Hnd; [reflexivity|].
  cbn [map] in Hnd. apply NoDup_cons in Hnd as [Hx Hnd].
  specialize (IH Hnd). cbn [list_prod map].
  rewrite List.filter_app, length_app. cbn [List.filter fst snd].
  rewrite str_lt_irrefl, filter_map_pair, filter_prod_cons_r.
  cbn [fst snd]. pose proof (one_order_each x d Hx) as Hone.
  cbn [length]. nia.
Qed.

Lemma number_of_considered_pairs_witness :
  (2 * length (considered_pairs
                 [("photos/b.jpg", Photos.hash_b);
                  ("photos/a.jpg", Photos.hash_a);
                  ("photos/c.jpg", Photos.hash_a)])
   = 3 * 2)%nat.
Proof.
  apply (number_of_considered_pairs
           [("photos/b.jpg", Photos.hash_b); ("photos/a.jpg", Photos.hash_a);
            ("photos/c.jpg", Photos.hash_a)]).
  cbn. repeat (apply NoDup_cons; split;
               [rewrite ?elem_of_cons, elem_of_nil; intuition discriminate|]).
  constructor.
Defined.

(** ** What a run records *)

Section Events.

Variable allowed : level -> event -> Prop.

Lemma only_events_refl (st : state) : only_events allowed st st.
Proof.
  split; [reflexivity|]. exists []. split; [|constructor].
  symmetry. apply app_nil_r.
Qed.

Lemma only_events_trans (st1 st2 st3 : state) :
  only_events allowed st1 st2 -> only_events allowed st2 st3 ->
  only_events allowed st1 st3.
Proof.
  intros [Hl1 (evs1 & Ht1 & Hf1)] [Hl2 (evs2 & Ht2 & Hf2)].
  split; [congruence|]. exists (evs1 ++ evs2). split.
  - rewrite Ht2, Ht1, app_assoc. reflexivity.
  - apply Forall_app. split; [exact Hf1|]. rewrite <- Hl1. exact Hf2.
Qed.

Lemma only_events_extend (st : state) (evs : list event) :
  Forall (allowed (logger_level st)) evs ->
  only_events allowed st (extend st evs).
Proof. intros H. split; [reflexivity|]. exists evs. auto. Qed.

Lemma keeps_ret {A : Type} (a : A) : keeps allowed (mret a).
Proof. intros st. apply only_events_refl. Qed.

Lemma keeps_lift {A : Type} (r : result A) : keeps allowed (lift r).
Proof. intros st. apply only_events_refl. Qed.

Lemma keeps_bind {A B : Type} (m : M A) (f : A -> M B) :
  keeps allowed m -> (forall a, keeps allowed (f a)) ->
  keeps allowed (m ≫= f).
Proof.
  intros Hm Hf st. unfold mbind, M_bind, bind.
  specialize (Hm st). destruct (m st) as [[a|e] st1]; cbn [snd] in *.
  - eapply only_events_trans; [exact Hm | apply Hf].
  - exact Hm.
Qed.

Lemma keeps_for_each {A : Type} (xs : list A) (body : A -> M unit) :
  (forall x, x ∈ xs -> keeps allowed (body x)) ->
  keeps allowed (for_each xs body).
Proof.
  induction xs as [|x xs IH]; intros Hb; cbn [for_each].
  - apply (keeps_ret tt).
  - apply keeps_bind; [apply Hb, list_elem_of_here|].
    intros _. apply IH. intros y Hy. apply Hb, list_elem_of_further, Hy.
Qed.

Lemma keeps_logger_log (lvl : level) (msg : string) :
  (forall logger, level_enabled lvl logger = true ->
                  allowed logger (Log lvl msg)) ->
  keeps allowed (logger_log lvl msg).
Proof.
  intros H st. unfold logger_log.
  destruct (level_enabled lvl (logger_level st)) eqn:E; cbn [snd].
  - apply (only_events_extend st [Log lvl msg]). auto.
  - apply only_events_refl.
Qed.

Lemma keeps_subprocess (w : World) (cmd : list string) :
  (forall logger, allowed logger (Exec cmd)) ->
  keeps allowed (subprocess w cmd).
Proof.
  intros H st. rewrite subprocess_run. cbn [snd].
  apply only_events_extend. auto.
Qed.

End Events.

Lemma comparison_event_debug (paths : list string) (msg : string) :
  forall logger, level_enabled DEBUG logger = true ->
                 comparison_event paths logger (Log DEBUG msg).
Proof. intros [|] H; [reflexivity | discriminate]. Qed.

Lemma comparison_event_mono (paths paths' : list string) (logger : level)
    (e : event) :
  (forall p, p ∈ paths -> p ∈ paths') ->
  comparison_event paths logger e -> comparison_event paths' logger e.
Proof.
  intros Hsub. destruct e as [cmd|lvl msg|msg]; cbn; [|tauto..].
  intros (p & Hp & H). exists p. auto.
Qed.

Lemma keeps_compare_items (w : World)
    (image_dict : list (string * ImageHash)) :
  keeps (comparison_event (map fst image_dict)) (compare_items w image_dict).
Proof.
  set (paths := map fst image_dict).
  assert (forall item : string * ImageHash, item ∈ image_dict ->
                                            fst item ∈ paths) as Hpath.
  { intros item Hin. apply list_elem_of_In, in_map, list_elem_of_In, Hin. }
  unfold compare_items. apply keeps_for_each. intros [image1 hash1] H1.
  apply keeps_for_each. intros [image2 hash2] H2.
  apply Hpath in H1, H2. cbn [fst] in H1, H2.
  unfold compare_pair. cbn [fst].
  destruct (str_lt image1 image2); [|apply keeps_ret].
  unfold merge_if_similar. apply keeps_bind; [apply keeps_lift|].
  intros [|]; [|apply keeps_ret].
  apply keeps_bind.
  { apply keeps_logger_log, comparison_event_debug. }
  intros []. apply keeps_bind.
  - unfold merge_metadata. apply keeps_bind.
    + cbn [read_files]. apply keeps_bind.
      { apply keeps_subprocess. intros logger. exists image1. auto. }
      intros o1. apply keeps_bind; [|intros o2; apply keeps_ret].
      apply keeps_subprocess. intros logger. exists image2. auto.
    + intros acc. apply keeps_bind; [|intros []; apply keeps_ret].
      apply keeps_logger_log, comparison_event_debug.
  - intros [[kws subjects] hs]. apply keeps_for_each. intros image Himage.
    unfold apply_metadata. apply keeps_bind.
    { apply keeps_logger_log. intros logger _. exact I. }
    intros []. apply keeps_bind; [|intros []; apply keeps_ret].
    apply keeps_subprocess. intros logger. exists image. split; [|eauto 6].
    apply elem_of_cons in Himage as [->|Himage]; [exact H1|].
    apply list_elem_of_singleton in Himage as ->. exact H2.
Qed.

Lemma keeps_hash_files (allowed : level -> event -> Prop) (w : World)
    (folder_path : string) (image_files : list string)
    (d0 : list (string * ImageHash)) :
  keeps allowed (hash_files w folder_path image_files d0).
Proof.
  revert d0. induction image_files as [|f files IH]; intros d0;
    cbn [hash_files].
  - apply keeps_ret.
  - apply keeps_bind; [apply keeps_lift | intros h; apply IH].
Qed.

Lemma keeps_compare_all_images (w : World) (folder_path : string) :
  keeps (comparison_event (image_paths w folder_path))
    (compare_all_images w folder_path).
Proof.
  intros st. unfold compare_all_images.
  erewrite bind_ok by apply logger_debug_run.
  set (st1 := extend st _).
  assert (only_events (comparison_event (image_paths w folder_path)) st st1)
    as H01.
  { subst st1. apply only_events_extend. unfold debug_events.
    destruct (logger_level st); repeat constructor. }
  unfold image_paths in *. unfold mbind at 1, M_bind, bind, lift.
  destruct (listdir w folder_path) as [names|e]; [|exact H01].
  eapply only_events_trans; [exact H01|]. clear H01.
  set (paths := map (path_join w folder_path) (List.filter is_image_file names)).
  apply (keeps_bind (comparison_event paths)).
  { apply keeps_logger_log, comparison_event_debug. }
  intros [] st2. unfold mbind at 1, M_bind, bind.
  pose proof (keeps_hash_files (comparison_event paths) w folder_path
                (List.filter is_image_file names) [] st2) as Hh.
  destruct (hash_files w folder_path (List.filter is_image_file names) [] st2)
    as [[d|e] st3] eqn:Hrun; cbn [snd] in *; [|exact Hh].
  eapply only_events_trans; [exact Hh|].
  apply (keeps_bind (comparison_event paths)).
  { apply keeps_logger_log, comparison_event_debug. }
  intros [] st4.
  destruct (keeps_compare_items w d st4) as [Hl (evs & Ht & Hf)].
  split; [exact Hl|]. exists evs. split; [exact Ht|].
  eapply Forall_impl; [exact Hf|]. intros ev.
  apply comparison_event_mono. intros p Hp.
  apply list_elem_of_In, in_map_iff in Hp as ([p' h] & <- & Hin).
  apply list_elem_of_In in Hin.
  destruct (hash_files_spec w folder_path (List.filter is_image_file names)
              [] d st2 st3) as [_ Hd];
    [constructor | intros ? ? H; inversion H | exact Hrun |].
  apply Hd in Hin as [[[h0 H]|(f & Hf' & ->)] _]; [inversion H|].
  cbn [fst]. subst paths. apply list_elem_of_In, in_map_iff.
  exists f. split; [reflexivity | apply list_elem_of_In, Hf'].
Qed.

(** X16: whatever the folder holds and whatever the tool answers,
    [compare_all_images] runs no other command than the read and the write
    of the tool, and only on paths of files of the folder that were taken as
    images. *)
Theorem only_image_files_reach_the_tool (w : World) (folder_path : string)
    (st : state) :
  exists evs,
    trace (snd (compare_all_images w folder_path st)) = trace st ++ evs /\
    forall cmd, Exec cmd ∈ evs ->
      exists names f,
        listdir w folder_path = Ok names /\
        f ∈ names /\ is_image_file f = true /\
        (cmd = read_command (path_join w folder_path f) \/
         exists kws subjects hs,
           cmd = write_parameters (path_join w folder_path f)
                   kws subjects hs).
Proof.
  destruct (keeps_compare_all_images w folder_path st)
    as [_ (evs & Ht & Hf)].
  exists evs. split; [exact Ht|]. intros cmd Hin.
  rewrite Forall_forall in Hf. apply Hf in Hin as (p & Hp & Hcmd).
  unfold image_paths in Hp.
  destruct (listdir w folder_path) as [names|e]; [|inversion Hp].
  apply list_elem_of_In, in_map_iff in Hp as (f & <- & Hf').
  apply filter_In in Hf' as [Hf' Himg].
  exists names, f. split; [reflexivity|].
  split; [apply list_elem_of_In, Hf'|]. split; [exact Himg | exact Hcmd].
Qed.

(** X17: [compare_all_images] leaves the level of the logger as it is,
    prints nothing, and records a DEBUG message only when the logger is at
    DEBUG: at the level the module sets, INFO, a run records no DEBUG
    message. *)
Theorem comparison_respects_logger_level (w : World) (folder_path : string)
    (st : state) :
  let st' := snd (compare_all_images w folder_path st) in
  logger_level st' = logger_level st /\
  exists evs,
    trace st' = trace st ++ evs /\
    (forall msg, Print msg ∉ evs) /\
    (logger_level st = INFO -> forall msg, Log DEBUG msg ∉ evs).
Proof.
  destruct (keeps_compare_all_images w folder_path st)
    as [Hl (evs & Ht & Hf)].
  cbv zeta. split; [exact Hl|]. exists evs. split; [exact Ht|].
  rewrite Forall_forall in Hf. split.
  - intros msg Hin. exact (Hf _ Hin).
  - intros Hinfo msg Hin. apply Hf in Hin. cbn in Hin. congruence.
Qed.

(** X18: with two or three words on the command line [main] never prints
    the usage text; without [-v] among the arguments a run started at INFO
    records no DEBUG message, and with [-v] the logger ends at DEBUG. *)
Theorem main_verbosity (w : World) (argv : list string) (st : state) :
  length argv = 2%nat \/ length argv = 3%nat ->
  let st' := snd (main w argv st) in
  exists evs,
    trace st' = trace st ++ evs /\
    (forall msg, Print msg ∉ evs) /\
    ("-v" ∉ tail argv -> logger_level st = INFO ->
     logger_level st' = INFO /\ forall msg, Log DEBUG msg ∉ evs) /\
    ("-v" ∈ tail argv -> logger_level st' = DEBUG).
Proof.
  intros Hlen. unfold main.
  assert ((length argv =? 2)%nat || (length argv =? 3)%nat = true) as ->.
  { destruct Hlen as [->| ->]; reflexivity. }
  cbn [negb]. erewrite bind_ok by apply read_arguments_run.
  set (args := tail argv). set (st0 := after_arguments args st).
  destruct (keeps_compare_all_images w (chosen_folder args) st0)
    as [Hl (evs & Ht & Hf)].
  fold (chosen_folder args). cbv zeta.
  exists evs. split; [exact Ht|].
  rewrite Forall_forall in Hf.
  assert (existsb (fun arg => String.eqb arg "-v") args = true
          <-> "-v" ∈ args) as Hv.
  { rewrite existsb_exists. split.
    - intros (x & Hx & ->%String.eqb_eq). apply list_elem_of_In, Hx.
    - intros Hin. exists "-v". split; [apply list_elem_of_In, Hin|].
      reflexivity. }
  split; [intros msg Hin; exact (Hf _ Hin)|]. split.
  - intros Hno Hinfo.
    assert (logger_level st0 = INFO) as Hst0.
    { subst st0. unfold after_arguments. cbn [logger_level].
      destruct (existsb _ args) eqn:E; [|exact Hinfo].
      exfalso. apply Hno, Hv. reflexivity. }
    split; [rewrite Hl; exact Hst0|]. intros msg Hin. apply Hf in Hin.
    cbn [comparison_event] in Hin. congruence.
  - intros Hin. rewrite Hl. subst st0. unfold after_arguments.
    cbn [logger_level]. apply Hv in Hin. rewrite Hin. reflexivity.
Qed.

Lemma main_verbosity_witness :
  let st' :=
    snd (main Photos.both_tagged ["merge_image_metadata.py"; "photos"]
           initial_state) in
  exists evs,
    trace st' = trace initial_state ++ evs /\
    (forall msg, Print msg ∉ evs) /\
    ("-v" ∉ ["photos"] -> logger_level initial_state = INFO ->
     logger_level st' = INFO /\ forall msg, Log DEBUG msg ∉ evs) /\
    ("-v" ∈ ["photos"] -> logger_level st' = DEBUG).
Proof.
  apply (main_verbosity Photos.both_tagged
           ["merge_image_metadata.py"; "photos"] initial_state).
  left. reflexivity.
Defined.

(** ** Folders with fewer than two images *)

(** X19: in a folder with no image file, or with one image file that
    decodes, nothing is compared: [compare_all_images] returns without an
    exception and has run no command. *)
Theorem fewer_than_two_images (w : World) (folder_path : string)
    (names : list string) (st : state) :
  listdir w folder_path = Ok names ->
  (length (List.filter is_image_file names) <= 1)%nat ->
  (forall f, f ∈ names -> is_image_file f = true ->
             exists h, average_hash w (path_join w folder_path f) = Ok h) ->
  exists st',
    compare_all_images w folder_path st = (Ok tt, st') /\
    commands (trace st') = commands (trace st).
Proof.
  intros Hl Hlen Hhash. unfold compare_all_images.
  erewrite bind_ok by apply logger_debug_run.
  erewrite bind_ok by (unfold lift; rewrite Hl; reflexivity).
  erewrite bind_ok by apply logger_debug_run.
  destruct (List.filter is_image_file names) as [|f [|g rest]] eqn:Hfiles.
  - cbn [hash_files]. erewrite bind_ok by reflexivity.
    erewrite bind_ok by apply logger_debug_run.
    eexists. split; [reflexivity|].
    rewrite !extend_extend. cbn [extend trace].
    rewrite commands_app, !commands_app, !debug_events_commands.
    rewrite !app_nil_r. reflexivity.
  - assert (In f (List.filter is_image_file names)) as Hin
      by (rewrite Hfiles; left; reflexivity).
    apply filter_In in Hin as [Hin Himg].
    destruct (Hhash f (proj2 (list_elem_of_In _ _) Hin) Himg) as [h Hh].
    cbn [hash_files]. unfold create_image_hash.
    erewrite bind_ok; cycle 1.
    { erewrite bind_ok by (unfold lift; rewrite Hh; reflexivity).
      reflexivity. }
    erewrite bind_ok by apply logger_debug_run.
    cbn [dict_set compare_items for_each]. unfold compare_pair. cbn [fst].
    rewrite str_lt_irrefl.
    eexists. split; [reflexivity|].
    rewrite !extend_extend. cbn [extend trace].
    rewrite commands_app, !commands_app, !debug_events_commands.
    rewrite !app_nil_r. reflexivity.
  - cbn [length] in Hlen. lia.
Qed.

Lemma fewer_than_two_images_witness :
  exists st',
    compare_all_images
      {| listdir := fun _ => Ok ["notes.gif"; "a.jpg"; "a.txt"];
         path_join := fun dir f => dir +:+ "/" +:+ f;
         average_hash := fun _ => Ok Photos.hash_a;
         run_process := fun _ _ => Ok Photos.updated |}
      "photos" initial_state = (Ok tt, st') /\
    commands (trace st') = commands (trace initial_state).
Proof.
  apply (fewer_than_two_images _ "photos" ["notes.gif"; "a.jpg"; "a.txt"]
           initial_state).
  - reflexivity.
  - apply Nat.leb_le. reflexivity.
  - intros f _ _. exists Photos.hash_a. reflexivity.
Defined.

(** ** A run that goes through *)



